(** * molter/help.py: the configurable help command

    A shallow embedding of [HelpCommand] (molter/help.py) and the
    properties of its filtering and formatting code.

    Python values are modelled as follows.
    - [str] is a list of Unicode code points ([N]); [len] is [length].
    - A [dict] is an association list in insertion order, with Python's
      item assignment (an existing key keeps its position).
    - Objects of the host framework (client, user, command, context) are
      records holding the attributes that help.py reads.
    - Check predicates are callables supplied by the user; a command
      stores their identities and [run_check] gives what awaiting one on a
      context returns.
    - [for] loops are written with explicit [Continue] and [Raise]
      signals, so that each [continue] statement has the scope Python
      gives it and an exception leaves every loop.
    - A result of type [option] is [None] where the code raises, or
      where the input is outside the modelled part of [str.lower] and
      [str.format] (stated at their definitions). *)

From Stdlib Require Import String Ascii Decimal.
From Stdlib Require Import List Bool Arith NArith Lia.
Import ListNotations.

Set Implicit Arguments.

(** ** Strings *)

Definition char := N.
Definition str := list char.

(** An ASCII literal as a Python [str]. *)
Fixpoint lit (s : string) : str :=
  match s with
  | EmptyString => []
  | String a s' => N_of_ascii a :: lit s'
  end.

Definition str_eqb (a b : str) : bool :=
  if list_eq_dec N.eq_dec a b then true else false.

(** U+200B ZERO WIDTH SPACE and U+000A LINE FEED. *)
Definition zwsp : char := 8203%N.
Definition nl : str := [10%N].

(** [sep.join(parts)] *)
Fixpoint join (sep : str) (parts : list str) : str :=
  match parts with
  | [] => []
  | [p] => p
  | p :: rest => p ++ sep ++ join sep rest
  end.

(** [s.lower()] for a text of ASCII characters, where it maps [A]-[Z] to
    [a]-[z] and nothing else. For a text with a code point above 127 the
    result is [None]: Unicode case mapping is not modelled. *)
Definition lower_char (c : char) : char :=
  if ((65 <=? c) && (c <=? 90))%N then (c + 32)%N else c.

Definition is_ascii (s : str) : bool := forallb (fun c => (c <? 128)%N) s.

Definition lower (s : str) : option str :=
  if is_ascii s then Some (map lower_char s) else None.

(** [str(n)] for a non-negative [int]. *)
Fixpoint uint_codes (d : Decimal.uint) : str :=
  match d with
  | Nil => []
  | D0 d => 48%N :: uint_codes d
  | D1 d => 49%N :: uint_codes d
  | D2 d => 50%N :: uint_codes d
  | D3 d => 51%N :: uint_codes d
  | D4 d => 52%N :: uint_codes d
  | D5 d => 53%N :: uint_codes d
  | D6 d => 54%N :: uint_codes d
  | D7 d => 55%N :: uint_codes d
  | D8 d => 56%N :: uint_codes d
  | D9 d => 57%N :: uint_codes d
  end.

Definition str_of_int (n : N) : str := uint_codes (N.to_uint n).

(** ** Dictionaries *)

Section Dict.
Variable V : Type.

Definition dict := list (str * V).

(** [d[k] = v] *)
Fixpoint dict_set (d : dict) (k : str) (v : V) : dict :=
  match d with
  | [] => [(k, v)]
  | (k', v') :: d' =>
      if str_eqb k' k then (k', v) :: d' else (k', v') :: dict_set d' k v
  end.

(** [d.get(k)] *)
Fixpoint dict_get (d : dict) (k : str) : option V :=
  match d with
  | [] => None
  | (k', v') :: d' => if str_eqb k' k then Some v' else dict_get d' k
  end.

Definition dict_keys (d : dict) : list str := map fst d.
Definition dict_values (d : dict) : list V := map snd d.
End Dict.

(** ** Loops with [continue] and exceptions *)

Inductive flow := Through | Continue | Raise.

Section Control.
Variable St : Type.

(** A statement of a loop body: it updates the state and falls through
    to the next statement, leaves the body for the next iteration, or
    raises. *)
Definition stmt := St -> flow * St.

Definition skip : stmt := fun s => (Through, s).
Definition continue : stmt := fun s => (Continue, s).
Definition raise : stmt := fun s => (Raise, s).
Definition assign (f : St -> St) : stmt := fun s => (Through, f s).

Definition seq (a b : stmt) : stmt :=
  fun s => match a s with
           | (Through, s') => b s'
           | (Continue, s') => (Continue, s')
           | (Raise, s') => (Raise, s')
           end.

Definition when (c : bool) (a : stmt) : stmt := if c then a else skip.

(** [for x in xs: body]. A [continue] of the body ends that iteration
    only, and the loop itself falls through; an exception ends the
    loop and goes on to what encloses it. *)
Fixpoint for_each (A : Type) (xs : list A) (body : A -> stmt) : stmt :=
  match xs with
  | [] => skip
  | x :: xs' =>
      fun s => match body x s with
               | (Raise, s') => (Raise, s')
               | (_, s') => for_each xs' body s'
               end
  end.
End Control.

Arguments skip {St}.
Arguments continue {St}.
Arguments raise {St}.

Declare Scope stmt_scope.
Delimit Scope stmt_scope with stmt.
Notation "a ;; b" := (seq a b) (at level 61, right associativity) : stmt_scope.

(** ** Objects of the host framework *)

Definition Check := nat.

Record Param := { name : str; optional : bool }.

Record Scale := { scale_checks : list Check }.

Record Command := {
  oid : nat;              (* identity of the object, what [==] compares *)
  qualified_name : str;
  enabled : bool;
  hidden : bool;
  aliases : list str;
  params : list Param;
  brief : str;
  help : str;
  checks : list Check;
  scale : option Scale
}.

Definition cmd_eqb (a b : Command) : bool := Nat.eqb (oid a) (oid b).

Record Context := { prefix : str }.

Record User := { id : N; username : str }.

Record Client := { commands : dict Command; user : User }.

(** The [HelpCommand] object. The class declares [show_disabled] and
    [_gather] reads it, but [__init__] does not assign it: the attribute
    is [None] here until something assigns it, and reading it then
    raises [AttributeError]. *)
Record HelpCommand := {
  _client : Client;
  show_hidden : bool;
  show_disabled : option bool;
  run_checks : bool;
  show_self : bool;
  show_params : bool;
  show_aliases : bool;
  show_prefix : bool;
  embed_title : str;
  not_found_message : str;
  cmd : Command
}.

Definition nonempty (A : Type) (l : list A) : bool :=
  match l with [] => false | _ => true end.

(** ** [_gather] *)

Section Gather.
(** What awaiting check [c] on a context returns. *)
Variable run_check : Check -> Context -> bool.

Variable self : HelpCommand.

Definition check_loop (cs : list Check) (ctx : Context)
  : stmt (dict Command) :=
  for_each cs (fun _c => when (negb (run_check _c ctx)) continue).

Definition scale_check_loop (c : Command) (ctx : Context)
  : stmt (dict Command) :=
  match scale c with
  | Some sc =>
      when (nonempty (scale_checks sc)) (check_loop (scale_checks sc) ctx)
  | None => skip
  end.

Definition gather_body (ctx : option Context) (c : Command)
  : stmt (dict Command) :=
  ((if negb (enabled c)
    then match show_disabled self with
         | Some b => when (negb b) continue
         | None => raise
         end
    else skip) ;;
   (if cmd_eqb c (cmd self) && negb (show_self self) then continue
    else when (hidden c && negb (show_hidden self)) continue) ;;
   match ctx with
   | Some x =>
       when (nonempty (checks c) && negb (run_checks self))
         (check_loop (checks c) x ;; scale_check_loop c x)
   | None => skip
   end ;;
   assign (fun out => dict_set out (qualified_name c) c))%stmt.

Definition _gather (ctx : option Context) : option (dict Command) :=
  match for_each (dict_values (commands (_client self)))
          (gather_body ctx) [] with
  | (Raise, _) => None
  | (_, out) => Some out
  end.
End Gather.

(** ** [str.replace] *)

(** [t.startswith(p)] *)
Fixpoint starts_with (t p : str) : bool :=
  match p, t with
  | [], _ => true
  | _ :: _, [] => false
  | a :: p', b :: t' => N.eqb a b && starts_with t' p'
  end.

(** The scan of [t.replace(old, new)] for a non-empty [old], left to
    right: where [old] starts, [new] is emitted and the rest of that
    occurrence ([skip] more characters) is passed over. *)
Fixpoint replace_scan (old new : str) (skip : nat) (t : str) : str :=
  match t with
  | [] => []
  | c :: t' =>
      match skip with
      | S k => replace_scan old new k t'
      | O =>
          if starts_with t old
          then new ++ replace_scan old new (length old - 1) t'
          else c :: replace_scan old new 0 t'
      end
  end.

(** [t.replace(old, new)]; an empty [old] matches before every character
    and at the end. *)
Definition str_replace (t old new : str) : str :=
  match old with
  | [] => new ++ flat_map (fun c => c :: new) t
  | _ :: _ => replace_scan old new 0 t
  end.

Definition mappings (self : HelpCommand) : dict str :=
  let u := user (_client self) in
  let m := dict_set [] (lit "@everyone") (lit "@" ++ zwsp :: lit "everyone") in
  let m := dict_set m (lit "@here") (lit "@" ++ zwsp :: lit "here") in
  let m := dict_set m (lit "<@" ++ str_of_int (id u) ++ lit ">")
                      (lit "@" ++ username u) in
  dict_set m (lit "<@!" ++ str_of_int (id u) ++ lit ">")
             (lit "@" ++ username u).

(** ** The formatting methods

    The command and the context are objects that the caller shares with
    the rest of the bot. The formatting methods are written over a store
    holding them, in a state monad that can read and assign their
    attributes. *)

Record Store := { st_cmd : Command; st_ctx : Context }.

Definition M (A : Type) := Store -> A * Store.

Definition ret (A : Type) (a : A) : M A := fun s => (a, s).
Definition bind (A B : Type) (m : M A) (k : A -> M B) : M B :=
  fun s => let (a, s') := m s in k a s'.
Definition read (A : Type) (f : Store -> A) : M A := fun s => (f s, s).
Definition write (f : Store -> Store) : M unit := fun s => (tt, f s).

Notation "'let!' x ':=' m 'in' k" := (bind m (fun x => k))
  (at level 10, x name, m at level 100, k at level 200).

(** [f"`{s}`"] *)
Definition code (s : str) : str := lit "`" ++ s ++ lit "`".

Definition _generate_command_string (self : HelpCommand) : M str :=
  let! p := (if show_prefix self then read (fun s => prefix (st_ctx s))
             else ret []) in
  let! q := read (fun s => qualified_name (st_cmd s)) in
  let _temp := code (p ++ q) in
  let! als := read (fun s => aliases (st_cmd s)) in
  let _temp :=
    if nonempty als && show_aliases self
    then _temp ++ (lit "|" ++ join (lit "|") (map code als))
    else _temp in
  let! ps := read (fun s => params (st_cmd s)) in
  let _temp :=
    if nonempty ps && show_params self
    then fold_left
           (fun _temp param =>
              let wrapper := if optional param then (lit "[", lit "]")
                             else (lit "<", lit ">") in
              _temp ++ (lit " " ++ code (fst wrapper ++ name param
                                           ++ snd wrapper)))
           ps _temp
    else _temp in
  ret _temp.

Definition _sanitise_mentions (self : HelpCommand) (text : str) : M str :=
  ret (fold_left
         (fun text '(source, target) => str_replace text source target)
         (mappings self) text).

(** The value a method returns for a command and a context. *)
Definition run_on (A : Type) (m : M A) (c : Command) (ctx : Context) : A :=
  fst (m {| st_cmd := c; st_ctx := ctx |}).

(** ** [str.format] with one keyword argument

    [format_kw tmpl key value] is [tmpl.format(key=value)] for a [str]
    value. Literal text, the escapes [{{] and [}}] and the replacement
    field [{key}] are modelled. The result is [None] where Python raises
    (a lone brace, an unclosed field, a field naming anything else) and
    for fields with a conversion, a format spec, an attribute or an
    index, which are not modelled. *)
Definition lbrace : char := 123%N.
Definition rbrace : char := 125%N.

Definition ocons (c : char) (o : option str) : option str :=
  match o with Some s => Some (c :: s) | None => None end.

Definition oapp (v : str) (o : option str) : option str :=
  match o with Some s => Some (v ++ s) | None => None end.

Fixpoint format_scan (key value : str) (field : option str) (tmpl : str)
  : option str :=
  match field with
  | None =>
      match tmpl with
      | [] => Some []
      | c :: rest =>
          if N.eqb c lbrace then
            match rest with
            | c' :: rest' =>
                if N.eqb c' lbrace
                then ocons lbrace (format_scan key value None rest')
                else format_scan key value (Some []) rest
            | [] => None
            end
          else if N.eqb c rbrace then
            match rest with
            | c' :: rest' =>
                if N.eqb c' rbrace
                then ocons rbrace (format_scan key value None rest')
                else None
            | [] => None
            end
          else ocons c (format_scan key value None rest)
      end
  | Some acc =>
      match tmpl with
      | [] => None
      | c :: rest =>
          if N.eqb c rbrace then
            if str_eqb acc key
            then oapp value (format_scan key value None rest)
            else None
          else if N.eqb c lbrace then None
          else format_scan key value (Some (acc ++ [c])) rest
      end
  end.

Definition format_kw (tmpl key value : str) : option str :=
  format_scan key value None tmpl.

(** ** Construction *)

Definition default_embed_title : str := lit "{username} Help Command".
Definition default_not_found_message : str :=
  lit "Sorry! No command called `{cmd_name}` was found.".

(** [x or d] for an optional string [x]. *)
Definition or_default (x : option str) (d : str) : str :=
  match x with
  | Some (c :: s) => c :: s
  | _ => d
  end.

(** [HelpCommand(client, ...)]. [callback] is the command object that
    the [msg_command] decorator makes of [_callback]. Nothing is assigned
    to [show_disabled]. *)
Definition init (client : Client)
    (show_hidden run_checks show_self show_params show_aliases
       show_prefix : bool)
    (embed_title not_found_message : option str)
    (callback : Command) : HelpCommand :=
  {| _client := client;
     show_hidden := show_hidden;
     show_disabled := None;
     run_checks := run_checks;
     show_self := show_self;
     show_params := show_params;
     show_aliases := show_aliases;
     show_prefix := show_prefix;
     embed_title := or_default embed_title default_embed_title;
     not_found_message :=
       or_default not_found_message default_not_found_message;
     cmd := callback |}.

(** [self.show_disabled = b] *)
Definition set_show_disabled (self : HelpCommand) (b : bool) : HelpCommand :=
  {| _client := _client self;
     show_hidden := show_hidden self;
     show_disabled := Some b;
     run_checks := run_checks self;
     show_self := show_self self;
     show_params := show_params self;
     show_aliases := show_aliases self;
     show_prefix := show_prefix self;
     embed_title := embed_title self;
     not_found_message := not_found_message self;
     cmd := cmd self |}.

(** ** The views *)

Inductive Color := BLURPLE.

Record Embed := { title : str; description : str; color : Color }.

(** [Paginator.create_from_list(client, content, page_size)] with its
    [default_title]. *)
Record Paginator := {
  content : list str;
  page_size : nat;
  default_title : str
}.

(** What a view sends; a view gives [None] when it raises before
    sending, or when the request or a template is outside the modelled
    part of [str.lower] and [str.format]. *)
Inductive Sent :=
| Reply (text : str)
| ReplyEmbed (embeds : Embed)
| PaginatorSend (paginator : Paginator).

Section Views.
Variable run_check : Check -> Context -> bool.
Variable self : HelpCommand.

Definition help_lines (ctx : Context) (cmds : dict Command) : list str :=
  fold_left
    (fun output c =>
       output ++ [run_on (let! _temp := _generate_command_string self in
                          let! b := read (fun s => brief (st_cmd s)) in
                          let _temp := _temp ++ (nl ++ b) in
                          _sanitise_mentions self _temp) c ctx])
    (dict_values cmds) [].

Definition _help_list (ctx : Context) : option Sent :=
  match _gather run_check self (Some ctx) with
  | None => None
  | Some cmds =>
      let output := help_lines ctx cmds in
      if 500 <? length (join nl output) then
        match format_kw (embed_title self) (lit "username")
                (username (user (_client self))) with
        | Some t =>
            Some (PaginatorSend {| content := output; page_size := 500;
                                   default_title := t |})
        | None => None
        end
      else
        match format_kw (embed_title self) (lit "username")
                (username (user (_client self))) with
        | Some t =>
            Some (ReplyEmbed {| title := t; description := join nl output;
                                color := BLURPLE |})
        | None => None
        end
  end.

Definition _help_specific (ctx : Context) (cmd_name : str) : option Sent :=
  match _gather run_check self (Some ctx) with
  | None => None
  | Some cmds =>
      match lower cmd_name with
      | None => None
      | Some name =>
          match dict_get cmds name with
          | Some c =>
              Some (Reply
                      (run_on (let! _temp := _generate_command_string self in
                               let! h := read (fun s => help (st_cmd s)) in
                               let _temp := _temp ++ (nl ++ h) in
                               _sanitise_mentions self _temp) c ctx))
          | None =>
              match format_kw (not_found_message self) (lit "cmd_name")
                      cmd_name with
              | Some m => Some (Reply m)
              | None => None
              end
          end
      end
  end.

Definition _callback (ctx : Context) (cmd_name : option str)
  : option Sent :=
  match cmd_name with
  | Some (c :: s) => _help_specific ctx (c :: s)
  | _ => _help_list ctx
  end.
End Views.

(** ** The filter by the three flags alone

    Stated from the description of the registry filter: a command is
    kept when it is enabled or [show_disabled] is set, is not the help
    command or [show_self] is set, and is not hidden or [show_hidden] is
    set; the kept commands are keyed by qualified name. [show_disabled]
    is set when it was assigned [True]. *)

Definition shows_disabled (self : HelpCommand) : bool :=
  match show_disabled self with Some b => b | None => false end.

Definition visible (self : HelpCommand) (c : Command) : bool :=
  (enabled c || shows_disabled self)
  && (negb (cmd_eqb c (cmd self)) || show_self self)
  && (negb (hidden c) || show_hidden self).

(** Reading [show_disabled] for command [c] raises: [c] is disabled
    and nothing was assigned to the attribute. *)
Definition raises_at (self : HelpCommand) (c : Command) : bool :=
  negb (enabled c)
  && match show_disabled self with None => true | Some _ => false end.

Definition gather_raises (self : HelpCommand) : bool :=
  existsb (raises_at self) (dict_values (commands (_client self))).

Definition keyed (l : list Command) (d : dict Command) : dict Command :=
  fold_left (fun out c => dict_set out (qualified_name c) c) l d.

Definition gather_by_flags (self : HelpCommand) : dict Command :=
  keyed (filter (visible self) (dict_values (commands (_client self)))) [].

(** ** Text cut at its at signs

    Devices for reasoning about the substitutions of
    [_sanitise_mentions]: every token they look for holds one at sign. *)

Definition at_sign : char := 64%N.
Definition lt_sign : char := 60%N.

(** Text without an at sign. *)
Definition noat (s : str) : bool :=
  forallb (fun c => negb (N.eqb c at_sign)) s.

(** The text made of a head and of segments, each after an at sign. *)
Definition unsegs (s : str) (ss : list str) : str :=
  s ++ flat_map (cons at_sign) ss.

(** [s.endswith("<")] *)
Definition ends_lt (s : str) : bool := N.eqb (last s 0%N) lt_sign.

Definition sub1 (p q s : str) : str :=
  if starts_with s p then q ++ skipn (length p) s else s.

(** The segment [s] without the [<] that a token at the next at sign
    takes from it. *)
Definition trim (p s : str) (ss : list str) : str :=
  match ss with
  | s1 :: _ => if ends_lt s && starts_with s1 p then removelast s else s
  | [] => s
  end.

(** The segments after [s] once every [<@p] is replaced by [@q]. *)
Fixpoint sub2 (p q s : str) (ss : list str) : list str :=
  match ss with
  | [] => []
  | s1 :: ss' =>
      if ends_lt s && starts_with s1 p
      then (q ++ trim p (skipn (length p) s1) ss')
             :: sub2 p q (skipn (length p) s1) ss'
      else trim p s1 ss' :: sub2 p q s1 ss'
  end.

(** No segment starts with [p]: the text has no [@p]. *)
Definition clean1 (p : str) (ss : list str) : bool :=
  forallb (fun s => negb (starts_with s p)) ss.

(** No segment that starts with [p] follows one that ends with [<]: the
    text has no [<@p]. *)
Fixpoint clean2 (p s : str) (ss : list str) : bool :=
  match ss with
  | [] => true
  | s1 :: ss' => negb (ends_lt s && starts_with s1 p) && clean2 p s1 ss'
  end.

Definition comparable (a b : str) : bool :=
  starts_with a b || starts_with b a.

Definition safe_username (u : User) : bool :=
  let n := username u in
  let d := str_of_int (id u) in
  noat n && negb (ends_lt n)
  && negb (comparable n (lit "everyone"))
  && negb (comparable n (lit "here"))
  && negb (comparable n (d ++ lit ">"))
  && negb (comparable n (lit "!" ++ d ++ lit ">")).

Definition digits (s : str) : bool :=
  forallb (fun c => (48 <=? c)%N && (c <=? 57)%N) s.

(** The four replacements of [_sanitise_mentions], in order. *)
Definition four (u d : str) (text : str) : str :=
  let text := replace_scan (lit "@everyone") (lit "@" ++ zwsp :: lit "everyone")
                0 text in
  let text := replace_scan (lit "@here") (lit "@" ++ zwsp :: lit "here")
                0 text in
  let text := replace_scan (lit "<@" ++ d ++ lit ">") (lit "@" ++ u) 0 text in
  replace_scan (lit "<@!" ++ d ++ lit ">") (lit "@" ++ u) 0 text.

Definition clean (d : str) (s : str) (ss : list str) : bool :=
  noat s && forallb noat ss
  && clean1 (lit "everyone") ss && clean1 (lit "here") ss
  && clean2 (d ++ lit ">") s ss && clean2 (lit "!" ++ d ++ lit ">") s ss.

(** Text without braces. *)
Definition plain (s : str) : bool :=
  forallb (fun c => negb (N.eqb c lbrace) && negb (N.eqb c rbrace)) s.

(** The text of one parameter: [[name]] when optional, [<name>] when
    required. *)
Definition param_text (p : Param) : str :=
  if optional p then lit "[" ++ name p ++ lit "]"
  else lit "<" ++ name p ++ lit ">".

(** The command string in closed form. *)
Definition signature (self : HelpCommand) (c : Command) (ctx : Context)
  : str :=
  code ((if show_prefix self then prefix ctx else []) ++ qualified_name c)
  ++ (if show_aliases self
      then concat (map (fun a => lit "|" ++ code a) (aliases c)) else [])
  ++ (if show_params self
      then concat (map (fun p => lit " " ++ code (param_text p)) (params c))
      else []).

(** ** A small bot

    Objects used to run the code on concrete inputs. *)

Definition ex_help : Command :=
  {| oid := 0; qualified_name := lit "help"; enabled := true;
     hidden := false; aliases := [];
     params := [{| name := lit "cmd_name"; optional := true |}];
     brief := lit "Shows this message"; help := lit "Shows this message";
     checks := []; scale := None |}.

Definition ex_ping : Command :=
  {| oid := 1; qualified_name := lit "ping"; enabled := true;
     hidden := false; aliases := [lit "p"]; params := [];
     brief := lit "Pong"; help := lit "Replies with pong";
     checks := []; scale := None |}.

(** A command guarded by check 0 and, through its scale, by check 1. *)
Definition ex_ban : Command :=
  {| oid := 2; qualified_name := lit "ban"; enabled := true;
     hidden := false; aliases := [];
     params := [{| name := lit "member"; optional := false |};
                {| name := lit "reason"; optional := true |}];
     brief := lit "Ban a member"; help := lit "Ban a member";
     checks := [0]; scale := Some {| scale_checks := [1] |} |}.

(** A command whose name has an upper-case letter. *)
Definition ex_Ping : Command :=
  {| oid := 3; qualified_name := lit "Ping"; enabled := true;
     hidden := false; aliases := []; params := [];
     brief := lit "Pong"; help := lit "Replies with pong";
     checks := []; scale := None |}.

Definition ex_secret : Command :=
  {| oid := 4; qualified_name := lit "secret"; enabled := true;
     hidden := true; aliases := []; params := [];
     brief := lit "Hidden"; help := lit "Hidden";
     checks := []; scale := None |}.

(** The help command after [help.cmd.hidden = True]. *)
Definition ex_hidden_help : Command :=
  {| oid := 0; qualified_name := lit "help"; enabled := true;
     hidden := true; aliases := [];
     params := [{| name := lit "cmd_name"; optional := true |}];
     brief := lit "Shows this message"; help := lit "Shows this message";
     checks := []; scale := None |}.

Definition ex_user : User := {| id := 1%N; username := lit "molter" |}.

Definition ex_client (cmds : list Command) (u : User) : Client :=
  {| commands := map (fun c => (qualified_name c, c)) cmds; user := u |}.

Definition ex_ctx : Context := {| prefix := lit "!" |}.

(** Every check fails. *)
Definition ex_deny : Check -> Context -> bool := fun _ _ => false.

(** [HelpCommand(client)] with every option at its default. *)
Definition ex_default (cmds : list Command) (u : User) : HelpCommand :=
  init (ex_client cmds u) false false false false false false None None
       ex_help.

(** A disabled command. *)
Definition ex_off : Command :=
  {| oid := 7; qualified_name := lit "off"; enabled := false;
     hidden := false; aliases := []; params := [];
     brief := lit "Switched off"; help := lit "Switched off";
     checks := []; scale := None |}.

(** Thirty commands [cmd0] .. [cmd29], each with a line of 18 or 19
    characters in the list view. *)
Definition ex_many : list Command :=
  map (fun i =>
         {| oid := 10 + i;
            qualified_name := lit "cmd" ++ str_of_int (N.of_nat i);
            enabled := true; hidden := false; aliases := []; params := [];
            brief := lit "Does things"; help := lit "Does things";
            checks := []; scale := None |})
      (List.seq 0 30).

(** ** Further definitions

    What the properties of the second part below are stated with. *)

(** One flag setting shows at least what another shows. *)
Definition shows_more (a b : HelpCommand) : Prop :=
  _client b = _client a /\ cmd b = cmd a
  /\ (show_hidden a = true -> show_hidden b = true)
  /\ (forall x, show_disabled a = Some x ->
                exists y, show_disabled b = Some y /\ (x = true -> y = true))
  /\ (show_self a = true -> show_self b = true).

(** What both views write for a command: its command string, a line
    feed and [doc] of the command ([brief] or [help]), with the
    mentions sanitised. *)
Definition entry (self : HelpCommand) (doc : Command -> str) (c : Command)
    (ctx : Context) : str :=
  run_on (_sanitise_mentions self
            (run_on (_generate_command_string self) c ctx ++ nl ++ doc c))
         c ctx.

(** [p in t]: the text [p] occurs in the text [t]. *)
Definition occurs (p t : str) : Prop := exists a b, t = a ++ p ++ b.

(** A command whose texts mention everyone. *)
Definition ex_announce : Command :=
  {| oid := 5; qualified_name := lit "announce"; enabled := true;
     hidden := false; aliases := []; params := [];
     brief := lit "Pings @everyone"; help := lit "Pings @everyone and @here";
     checks := []; scale := None |}.

(** ** [register] and [send_help]

    [register] changes two shared objects: the registry of the client
    and the [callback] attribute of the command object [self.cmd]. The
    state below holds the help command (with its client), that callback
    and the warnings logged. One [HelpCommand] object is considered, so a
    [functools.partial] made by [register] binds that object. *)

(** [k in d] *)
Definition dict_mem (V : Type) (d : dict V) (k : str) : bool :=
  match dict_get d k with Some _ => true | None => false end.

(** [del d[k]] for a key of [d]: what is stored under [k] goes, the
    rest keeps its order. *)
Definition dict_del (V : Type) (d : dict V) (k : str) : dict V :=
  filter (fun kv => negb (str_eqb (fst kv) k)) d.

(** The callback of the command object: the coroutine function
    [_callback(self, ctx, cmd_name=None)], or a [functools.partial] of a
    callback with [self] as first argument. *)
Inductive Callback := Function | Partial (func : Callback).

Definition is_partial (cb : Callback) : bool :=
  match cb with Partial _ => true | Function => false end.

Record World := {
  w_self : HelpCommand;
  w_callback : Callback;
  w_log : list str
}.

Definition with_client (self : HelpCommand) (client : Client) : HelpCommand :=
  {| _client := client;
     show_hidden := show_hidden self;
     show_disabled := show_disabled self;
     run_checks := run_checks self;
     show_self := show_self self;
     show_params := show_params self;
     show_aliases := show_aliases self;
     show_prefix := show_prefix self;
     embed_title := embed_title self;
     not_found_message := not_found_message self;
     cmd := cmd self |}.

Definition with_commands (client : Client) (d : dict Command) : Client :=
  {| commands := d; user := user client |}.

Inductive Outcome := Returned | Raised.

Section Register.
(** [client.add_message_command(command)] of the host framework: the
    client it leaves, or [None] when it raises. *)
Variable add_message_command : Client -> Command -> option Client.
Variable run_check : Check -> Context -> bool.

Definition register (w : World) : World * Outcome :=
  let self := w_self w in
  let callback :=
    if negb (is_partial (w_callback w)) then Partial (w_callback w)
    else w_callback w in
  let '(client, log) :=
    if dict_mem (commands (_client self)) (lit "help")
    then (with_commands (_client self)
            (dict_del (commands (_client self)) (lit "help")),
          w_log w ++ [lit "Replacing existing help command."])
    else (_client self, w_log w) in
  match add_message_command client (cmd self) with
  | Some client' =>
      ({| w_self := with_client self client'; w_callback := callback;
          w_log := log |}, Returned)
  | None =>
      ({| w_self := with_client self client; w_callback := callback;
          w_log := log |}, Raised)
  end.

(** [callback(ctx, cmd_name)]. The function called without [self] takes
    the context for [self], which has no [_help_list]; a partial of a
    partial passes one argument too many. Both raise. *)
Definition call_callback (w : World) (ctx : Context)
    (cmd_name : option str) : option Sent :=
  match w_callback w with
  | Partial Function => _callback run_check (w_self w) ctx cmd_name
  | _ => None
  end.

Definition send_help (w : World) (ctx : Context) (cmd_name : option str)
  : option Sent :=
  call_callback w ctx cmd_name.
End Register.

(** The host's [add_message_command] as the examples take it: it stores
    the command under its name and raises on a name already there. *)
Definition ex_add (client : Client) (c : Command) : option Client :=
  if dict_mem (commands client) (qualified_name c) then None
  else Some (with_commands client
               (dict_set (commands client) (qualified_name c) c)).

(** A later help command, another object than [ex_help]. *)
Definition ex_help2 : Command :=
  {| oid := 6; qualified_name := lit "help"; enabled := true;
     hidden := false; aliases := []; params := [];
     brief := lit "Help"; help := lit "Help";
     checks := []; scale := None |}.

(** * Properties *)

(** ** Strings and dictionaries *)

Lemma str_eqb_eq (a b : str) : str_eqb a b = true <-> a = b.
Proof.
  unfold str_eqb. destruct (list_eq_dec N.eq_dec a b); split; congruence.
Qed.

Lemma str_eqb_refl (a : str) : str_eqb a a = true.
Proof. apply str_eqb_eq. reflexivity. Qed.

Lemma str_eqb_neq (a b : str) : a <> b -> str_eqb a b = false.
Proof.
  intros H. destruct (str_eqb a b) eqn:E; [|reflexivity].
  apply str_eqb_eq in E. contradiction.
Qed.

Section DictFacts.
Variable V : Type.
Implicit Types (d : dict V) (k : str) (v : V).

Lemma dict_get_set_same d k v : dict_get (dict_set d k v) k = Some v.
Proof.
  induction d as [|[k' v'] d IH]; simpl.
  - rewrite str_eqb_refl. reflexivity.
  - destruct (str_eqb k' k) eqn:E; simpl; rewrite E; auto.
Qed.

Lemma dict_get_set_other d k k' v :
  k <> k' -> dict_get (dict_set d k v) k' = dict_get d k'.
Proof.
  intros Hk. induction d as [|[k0 v0] d IH]; simpl.
  - rewrite str_eqb_neq by assumption. reflexivity.
  - destruct (str_eqb k0 k) eqn:E; simpl.
    + apply str_eqb_eq in E. subst k0.
      rewrite str_eqb_neq by assumption. reflexivity.
    + rewrite IH. reflexivity.
Qed.

Lemma dict_get_In d k v : dict_get d k = Some v -> In v (dict_values d).
Proof.
  induction d as [|[k0 v0] d IH]; simpl; [discriminate|].
  destruct (str_eqb k0 k); intros H.
  - left. congruence.
  - right. auto.
Qed.

Lemma dict_set_values d k v x :
  In x (dict_values (dict_set d k v)) -> x = v \/ In x (dict_values d).
Proof.
  induction d as [|[k0 v0] d IH]; simpl.
  - intros [H|[]]. left. congruence.
  - destruct (str_eqb k0 k); simpl; intros [H|H]; auto.
    destruct (IH H); auto.
Qed.
End DictFacts.

(** ** [_gather] *)

Section GatherFacts.
Variable run_check : Check -> Context -> bool.
Variable self : HelpCommand.

(** A check loop leaves the result mapping alone and falls through,
    whatever the checks return. *)
Lemma check_loop_falls_through cs ctx out :
  check_loop run_check cs ctx out = (Through, out).
Proof.
  revert out. induction cs as [|c cs IH]; intros out; [reflexivity|].
  unfold check_loop in *. cbn [for_each].
  destruct (run_check c ctx); cbn; apply IH.
Qed.

Lemma scale_check_loop_falls_through c ctx out :
  scale_check_loop run_check c ctx out = (Through, out).
Proof.
  unfold scale_check_loop. destruct (scale c) as [sc|]; [|reflexivity].
  destruct (nonempty (scale_checks sc)); simpl; [|reflexivity].
  apply check_loop_falls_through.
Qed.

(** One turn of the loop of [_gather]: it raises on a disabled command
    when [show_disabled] was never assigned, and otherwise stores the
    command exactly when the three flag conditions hold. *)
Lemma gather_body_run ctx c out :
  gather_body run_check self ctx c out
  = if raises_at self c then (Raise, out)
    else if visible self c
         then (Through, dict_set out (qualified_name c) c)
         else (Continue, out).
Proof.
  unfold gather_body, raises_at, visible, shows_disabled, seq, when.
  destruct (enabled c), (show_disabled self) as [[|]|]; simpl;
    try reflexivity;
    destruct (cmd_eqb c (cmd self)), (show_self self); simpl;
    try reflexivity;
    destruct (hidden c), (show_hidden self); simpl; try reflexivity;
    destruct ctx as [x|]; simpl; try reflexivity;
    destruct (nonempty (checks c) && negb (run_checks self)); simpl;
    try reflexivity;
    rewrite check_loop_falls_through, scale_check_loop_falls_through;
    reflexivity.
Qed.

Lemma for_each_gather ctx l : forall out,
  existsb (raises_at self) l = false ->
  for_each l (gather_body run_check self ctx) out
  = (Through, keyed (filter (visible self) l) out).
Proof.
  induction l as [|c l IH]; intros out H; [reflexivity|].
  simpl in H. apply orb_false_iff in H. destruct H as [Hc Hl].
  cbn [for_each filter]. rewrite gather_body_run, Hc.
  destruct (visible self c); apply IH, Hl.
Qed.

Lemma for_each_gather_raises ctx l : forall out,
  existsb (raises_at self) l = true ->
  fst (for_each l (gather_body run_check self ctx) out) = Raise.
Proof.
  induction l as [|c l IH]; intros out H; [discriminate|].
  cbn [for_each]. rewrite gather_body_run.
  destruct (raises_at self c) eqn:Hc; [reflexivity|].
  simpl in H. rewrite Hc in H.
  destruct (visible self c); apply IH, H.
Qed.

(** [_gather] raises or returns the registry filtered by the flags. *)
Lemma gather_run ctx :
  _gather run_check self ctx
  = if gather_raises self then None else Some (gather_by_flags self).
Proof.
  unfold _gather, gather_raises, gather_by_flags.
  destruct (existsb _ _) eqn:E.
  - pose proof (for_each_gather_raises ctx _ [] E) as H.
    destruct (for_each _ _ _) as [f out]. simpl in H. subst f.
    reflexivity.
  - rewrite for_each_gather by exact E. reflexivity.
Qed.

Lemma gather_some ctx out :
  _gather run_check self ctx = Some out -> out = gather_by_flags self.
Proof.
  rewrite gather_run. destruct (gather_raises self); congruence.
Qed.
End GatherFacts.

Lemma gather_raises_iff self :
  gather_raises self = true
  <-> show_disabled self = None
      /\ exists c, In c (dict_values (commands (_client self)))
                   /\ enabled c = false.
Proof.
  unfold gather_raises. rewrite existsb_exists. unfold raises_at. split.
  - intros (c & Hin & H). apply andb_true_iff in H. destruct H as [He Hs].
    apply negb_true_iff in He.
    destruct (show_disabled self); [discriminate|].
    split; [reflexivity|]. exists c. tauto.
  - intros (Hs & c & Hin & He). exists c. split; [exact Hin|].
    rewrite Hs, He. reflexivity.
Qed.

Lemma keyed_get l : forall d k c,
  dict_get (keyed l d) k = Some c ->
  (In c l /\ qualified_name c = k) \/ dict_get d k = Some c.
Proof.
  induction l as [|x l IH]; intros d k c H; simpl in H; [auto|].
  apply IH in H. destruct H as [[H1 H2]|H].
  - left. split; [right|]; assumption.
  - destruct (list_eq_dec N.eq_dec (qualified_name x) k) as [E|E].
    + subst k. rewrite dict_get_set_same in H. injection H as <-.
      left. split; [left|]; reflexivity.
    + rewrite dict_get_set_other in H by assumption. auto.
Qed.

Lemma keyed_values l : forall d c,
  In c (dict_values (keyed l d)) -> In c l \/ In c (dict_values d).
Proof.
  induction l as [|x l IH]; intros d c H; simpl in H; [auto|].
  apply IH in H. destruct H as [H|H]; [left; right; assumption|].
  apply dict_set_values in H. destruct H as [->|H]; [left; left|right]; auto.
Qed.

Lemma keyed_get_unique l : forall d c,
  (forall c', In c' l -> qualified_name c' = qualified_name c -> c' = c) ->
  In c l \/ dict_get d (qualified_name c) = Some c ->
  dict_get (keyed l d) (qualified_name c) = Some c.
Proof.
  induction l as [|x l IH]; intros d c Huniq H.
  - destruct H as [[]|H]. exact H.
  - simpl. apply IH.
    + intros c' Hc'. apply Huniq. right. assumption.
    + destruct H as [[->|H]|H].
      * right. apply dict_get_set_same.
      * left. assumption.
      * right.
        destruct (list_eq_dec N.eq_dec (qualified_name x) (qualified_name c))
          as [E|E].
        -- rewrite (Huniq x (or_introl eq_refl) E).
           apply dict_get_set_same.
        -- rewrite dict_get_set_other by assumption. exact H.
Qed.

(** ** What [_gather] returns *)

(** C3. For every registry, configuration and context, the mapping that
    [_gather] returns is the registry filtered by the three flag
    conditions alone and keyed by qualified name: the [continue]
    statements of the check loops remove nothing, so the outcome is the
    same whatever the command and scale checks return. [_gather]
    returns no mapping, but raises, exactly when [show_disabled] was
    never assigned and a command of the registry is disabled. *)
Theorem gather_is_filter_by_flags :
  forall (run_check : Check -> Context -> bool) (self : HelpCommand)
         (ctx : option Context),
    (forall out, _gather run_check self ctx = Some out ->
                 out = gather_by_flags self)
    /\ (_gather run_check self ctx = None
        <-> show_disabled self = None
            /\ exists c, In c (dict_values (commands (_client self)))
                         /\ enabled c = false)
    /\ (forall run_check' : Check -> Context -> bool,
          _gather run_check' self ctx = _gather run_check self ctx).
Proof.
  intros run_check self ctx. split; [apply gather_some|]. split.
  - rewrite <- gather_raises_iff, gather_run.
    destruct (gather_raises self); split; congruence.
  - intros run_check'. rewrite !gather_run. reflexivity.
Qed.

(** C1, on the code. With a context supplied and [run_checks] false, a
    command whose check and whose scale check both return false is still
    in the mapping that [_gather] returns. *)
Theorem failing_check_keeps_command :
  run_checks (ex_default [ex_ban] ex_user) = false
  /\ forallb (fun c => ex_deny c ex_ctx) (checks ex_ban) = false
  /\ _gather ex_deny (ex_default [ex_ban] ex_user) (Some ex_ctx)
     = Some [(lit "ban", ex_ban)].
Proof. repeat split. Qed.

(** What [_gather] keeps, by key. *)
Lemma gather_get run_check self ctx out k c :
  _gather run_check self ctx = Some out ->
  dict_get out k = Some c ->
  In c (dict_values (commands (_client self)))
  /\ visible self c = true /\ qualified_name c = k.
Proof.
  intros G H. apply gather_some in G. subst out. unfold gather_by_flags in H.
  apply keyed_get in H. destruct H as [[H1 H2]|H]; [|discriminate].
  apply filter_In in H1. tauto.
Qed.

Lemma gather_values run_check self ctx out c :
  _gather run_check self ctx = Some out ->
  In c (dict_values out) ->
  In c (dict_values (commands (_client self))) /\ visible self c = true.
Proof.
  intros G H. apply gather_some in G. subst out. unfold gather_by_flags in H.
  apply keyed_values in H. destruct H as [H|[]].
  apply filter_In in H. exact H.
Qed.

(** A visible command that alone bears its qualified name is the entry
    of that name. *)
Lemma gather_get_visible run_check self ctx out c :
  _gather run_check self ctx = Some out ->
  In c (dict_values (commands (_client self))) ->
  visible self c = true ->
  (forall c', In c' (dict_values (commands (_client self))) ->
              qualified_name c' = qualified_name c -> c' = c) ->
  dict_get out (qualified_name c) = Some c.
Proof.
  intros G Hin Hvis Huniq. apply gather_some in G. subst out.
  unfold gather_by_flags. apply keyed_get_unique.
  - intros c' Hc'. apply filter_In in Hc'. apply Huniq. tauto.
  - left. apply filter_In. tauto.
Qed.

(** C8 as stated fails: with [show_hidden] set, the help command itself,
    hidden and enabled, is in the registry and not in the result, because
    [show_self] is not set. *)
Lemma hidden_help_command_not_shown :
  let self := init (ex_client [ex_hidden_help; ex_ping] ex_user)
                   true false false false false false None None
                   ex_hidden_help in
  show_hidden self = true
  /\ In ex_hidden_help (dict_values (commands (_client self)))
  /\ hidden ex_hidden_help = true
  /\ enabled ex_hidden_help = true
  /\ _gather ex_deny self (Some ex_ctx) = Some [(lit "ping", ex_ping)].
Proof. repeat split. left. reflexivity. Qed.

(** C8, amended. Whenever [_gather] returns a mapping: with
    [show_hidden] false no hidden command is a value of it; with
    [show_hidden] true, a hidden and enabled command of the registry is
    in it under its qualified name, provided it is not the help command
    itself or [show_self] is set, and no other registered command has
    the same qualified name. *)
Theorem gather_hidden_rule :
  forall (run_check : Check -> Context -> bool) (self : HelpCommand)
         (ctx : option Context) (out : dict Command),
    _gather run_check self ctx = Some out ->
    (show_hidden self = false ->
     forall c, In c (dict_values out) -> hidden c = false)
    /\ (show_hidden self = true ->
        forall c,
          In c (dict_values (commands (_client self))) ->
          hidden c = true -> enabled c = true ->
          cmd_eqb c (cmd self) = false \/ show_self self = true ->
          (forall c', In c' (dict_values (commands (_client self))) ->
                      qualified_name c' = qualified_name c -> c' = c) ->
          dict_get out (qualified_name c) = Some c
          /\ In c (dict_values out)).
Proof.
  intros run_check self ctx out G. split.
  - intros Hsh c Hc. apply (@gather_values _ _ _ _ c G) in Hc.
    destruct Hc as [_ Hv].
    unfold visible in Hv. rewrite Hsh in Hv.
    destruct (hidden c); [|reflexivity].
    rewrite !andb_false_r in Hv. discriminate.
  - intros Hsh c Hin Hh He Hself Huniq.
    assert (E : dict_get out (qualified_name c) = Some c).
    { apply (@gather_get_visible _ _ _ _ c G); try assumption.
      unfold visible. rewrite Hsh, He, orb_true_r. simpl.
      rewrite andb_true_r.
      destruct Hself as [-> | ->]; [reflexivity | apply orb_true_r]. }
    split; [exact E | exact (dict_get_In _ _ E)].
Qed.

(** The rule on a bot with the commands [secret], hidden, and [ping]:
    [ping], a value of the result under the default options, is not
    hidden; with [show_hidden] the entry of [secret] is the command. *)
Lemma gather_hidden_rule_witness :
  let shown := init (ex_client [ex_secret; ex_ping] ex_user)
                    true false false false false false None None
                    ex_help in
  hidden ex_ping = false
  /\ dict_get [(lit "secret", ex_secret); (lit "ping", ex_ping)]
              (qualified_name ex_secret)
     = Some ex_secret
  /\ In ex_secret
        (dict_values [(lit "secret", ex_secret); (lit "ping", ex_ping)]).
Proof.
  intros shown. split.
  - apply (proj1 (gather_hidden_rule ex_deny
                    (ex_default [ex_secret; ex_ping] ex_user) (Some ex_ctx)
                    (out := [(lit "ping", ex_ping)]) eq_refl)
             eq_refl ex_ping).
    left. reflexivity.
  - apply (proj2 (gather_hidden_rule ex_deny shown (Some ex_ctx)
                    (out := [(lit "secret", ex_secret);
                             (lit "ping", ex_ping)]) eq_refl));
      try reflexivity.
    + left. reflexivity.
    + left. reflexivity.
    + intros c' [<- | [<- | []]] E; [reflexivity | discriminate E].
Defined.

(** ** The formatting methods *)

Lemma join_prefixed (sep : str) (l : list str) :
  nonempty l = true ->
  sep ++ join sep l = concat (map (fun a => sep ++ a) l).
Proof.
  induction l as [|a l IH]; [discriminate|]. intros _.
  destruct l as [|b l].
  - simpl. rewrite app_nil_r. reflexivity.
  - change (join sep (a :: b :: l)) with (a ++ sep ++ join sep (b :: l)).
    rewrite IH by reflexivity. simpl. rewrite <- !app_assoc. reflexivity.
Qed.

Lemma fold_left_append (A : Type) (f : A -> str) (l : list A) :
  forall acc : str,
    fold_left (fun t a => t ++ f a) l acc = acc ++ concat (map f l).
Proof.
  induction l as [|a l IH]; intros acc; simpl.
  - rewrite app_nil_r. reflexivity.
  - rewrite IH, app_assoc. reflexivity.
Qed.

Lemma generate_command_string_run self s :
  _generate_command_string self s = (signature self (st_cmd s) (st_ctx s), s).
Proof.
  destruct s as [c ctx].
  cbv beta iota zeta
      delta [_generate_command_string signature bind read ret st_cmd st_ctx].
  assert (P : forall t : str,
    (if nonempty (params c) && show_params self
     then fold_left
            (fun _temp param =>
               _temp ++ (lit " " ++ code
                 (fst (if optional param then (lit "[", lit "]")
                       else (lit "<", lit ">"))
                  ++ name param
                  ++ snd (if optional param then (lit "[", lit "]")
                          else (lit "<", lit ">")))))
            (params c) t
     else t)
    = t ++ (if show_params self
            then concat (map (fun p => lit " " ++ code (param_text p))
                             (params c))
            else [])).
  { intros t. destruct (show_params self).
    - rewrite andb_true_r. destruct (params c) as [|p ps] eqn:E.
      + simpl. rewrite app_nil_r. reflexivity.
      + simpl nonempty. cbv iota. rewrite fold_left_append. f_equal.
        apply f_equal, map_ext. intros a. unfold param_text.
        destruct (optional a); reflexivity.
    - rewrite andb_false_r, app_nil_r. reflexivity. }
  assert (A : forall t : str,
    (if nonempty (aliases c) && show_aliases self
     then t ++ (lit "|" ++ join (lit "|") (map code (aliases c)))
     else t)
    = t ++ (if show_aliases self
            then concat (map (fun a => lit "|" ++ code a) (aliases c))
            else [])).
  { intros t. destruct (show_aliases self).
    - rewrite andb_true_r. destruct (aliases c) as [|a als] eqn:E.
      + simpl. rewrite app_nil_r. reflexivity.
      + simpl nonempty. cbv iota. rewrite join_prefixed by reflexivity.
        rewrite map_map. reflexivity.
    - rewrite andb_false_r, app_nil_r. reflexivity. }
  destruct (show_prefix self); cbv beta iota; rewrite P, A, <- app_assoc;
    reflexivity.
Qed.

Lemma sanitise_mentions_run self text s :
  _sanitise_mentions self text s
  = (fold_left
       (fun text '(source, target) => str_replace text source target)
       (mappings self) text, s).
Proof. reflexivity. Qed.

(** C7. The command string is the qualified name in backticks, with the
    invocation prefix in front of it inside the backticks when
    [show_prefix] is set; then, when [show_aliases] is set, [|] and the
    alias in backticks for each alias; then, when [show_params] is set,
    a space and, in backticks, the parameter name in square brackets if
    optional and in angle brackets if required, for each parameter. With
    [show_prefix] and [show_aliases] set, prefix [!] and the command
    [ping] with the alias [p], it is [`!ping`|`p`]. *)
Theorem command_string_shape :
  (forall (self : HelpCommand) (c : Command) (ctx : Context),
     run_on (_generate_command_string self) c ctx
     = code ((if show_prefix self then prefix ctx else [])
             ++ qualified_name c)
       ++ (if show_aliases self
           then concat (map (fun a => lit "|" ++ code a) (aliases c))
           else [])
       ++ (if show_params self
           then concat (map (fun p => lit " " ++ code
                               (if optional p
                                then lit "[" ++ name p ++ lit "]"
                                else lit "<" ++ name p ++ lit ">"))
                            (params c))
           else []))
  /\ (forall self : HelpCommand,
        show_prefix self = true -> show_aliases self = true ->
        run_on (_generate_command_string self) ex_ping ex_ctx
        = lit "`!ping`|`p`").
Proof.
  split.
  - intros self c ctx. unfold run_on.
    rewrite generate_command_string_run. reflexivity.
  - intros self Hp Ha. unfold run_on.
    rewrite generate_command_string_run. unfold signature.
    rewrite Hp, Ha. simpl. destruct (show_params self); reflexivity.
Qed.

(** The example on a help command built with [show_aliases] and
    [show_prefix]. *)
Lemma command_string_shape_witness :
  run_on (_generate_command_string
            (init (ex_client [ex_ping] ex_user)
                  false false false false true true None None ex_help))
         ex_ping ex_ctx
  = lit "`!ping`|`p`".
Proof.
  apply (proj2 command_string_shape); reflexivity.
Defined.

(** C9. Generating the command string and sanitising mentions leave the
    command and the context as they were: after either method the store
    holding the two objects is the store it started from, for every
    command, context and text. *)
Theorem formatting_leaves_objects :
  forall (self : HelpCommand) (c : Command) (ctx : Context) (text : str),
    let s := {| st_cmd := c; st_ctx := ctx |} in
    snd (_generate_command_string self s) = s
    /\ snd (_sanitise_mentions self text s) = s.
Proof.
  intros self c ctx text s. split.
  - rewrite generate_command_string_run. reflexivity.
  - reflexivity.
Qed.

(** ** [str.format] *)

Lemma format_scan_literal key value s : forall rest,
  plain s = true ->
  format_scan key value None (s ++ rest)
  = oapp s (format_scan key value None rest).
Proof.
  induction s as [|c s IH]; intros rest Hs.
  - simpl. destruct (format_scan key value None rest); reflexivity.
  - simpl in Hs. apply andb_true_iff in Hs. destruct Hs as [Hc Hs].
    apply andb_true_iff in Hc. destruct Hc as [Hl Hr].
    apply negb_true_iff in Hl, Hr.
    change ((c :: s) ++ rest) with (c :: s ++ rest).
    cbn [format_scan]. rewrite Hl, Hr, (IH _ Hs).
    destruct (format_scan key value None rest); reflexivity.
Qed.

Lemma format_scan_field key value k : forall acc rest,
  plain k = true ->
  format_scan key value (Some acc) (k ++ rbrace :: rest)
  = if str_eqb (acc ++ k) key
    then oapp value (format_scan key value None rest) else None.
Proof.
  induction k as [|c k IH]; intros acc rest Hk.
  - simpl. rewrite app_nil_r. reflexivity.
  - simpl in Hk. apply andb_true_iff in Hk. destruct Hk as [Hc Hk].
    apply andb_true_iff in Hc. destruct Hc as [Hl Hr].
    apply negb_true_iff in Hl, Hr.
    change ((c :: k) ++ rbrace :: rest) with (c :: k ++ rbrace :: rest).
    cbn [format_scan]. rewrite Hl, Hr, (IH _ _ Hk), <- app_assoc.
    reflexivity.
Qed.

(** A template with the one token [{key}] between brace-free texts is
    formatted by putting the value in the token's place. *)
Lemma format_kw_token key value pre post :
  plain pre = true -> plain key = true -> plain post = true ->
  format_kw (pre ++ lbrace :: key ++ rbrace :: post) key value
  = Some (pre ++ value ++ post).
Proof.
  intros Hpre Hkey Hpost. unfold format_kw.
  rewrite format_scan_literal by assumption.
  assert (F : format_scan key value None (lbrace :: key ++ rbrace :: post)
              = format_scan key value (Some []) (key ++ rbrace :: post)).
  { destruct key as [|c k]; [reflexivity|].
    simpl in Hkey. apply andb_true_iff in Hkey. destruct Hkey as [Hc _].
    apply andb_true_iff in Hc. destruct Hc as [Hl _].
    apply negb_true_iff in Hl.
    cbn [format_scan app]. rewrite N.eqb_refl, Hl. reflexivity. }
  rewrite F, format_scan_field by assumption. simpl.
  rewrite str_eqb_refl.
  replace post with (post ++ []) at 1 by apply app_nil_r.
  rewrite format_scan_literal by assumption. simpl.
  rewrite app_nil_r. reflexivity.
Qed.

(** ** What the views send *)

Lemma help_list_not_reply run_check self ctx text :
  _help_list run_check self ctx <> Some (Reply text).
Proof.
  unfold _help_list.
  destruct (_gather run_check self (Some ctx)); [|discriminate].
  destruct (500 <? _);
    destruct (format_kw _ _ _); discriminate.
Qed.

(** C10. Called with the empty string as command name, the callback
    takes the list view: the name is tested for truth, not against
    [None]. The reply is then never the plain text of the not found
    message, the list view sending an embed or a paginator only. *)
Theorem empty_name_takes_list_view :
  forall (run_check : Check -> Context -> bool) (self : HelpCommand)
         (ctx : Context),
    _callback run_check self ctx (Some []) = _help_list run_check self ctx
    /\ forall text, _callback run_check self ctx (Some []) <> Some (Reply text).
Proof.
  intros run_check self ctx. split; [reflexivity|].
  intros text. apply help_list_not_reply.
Qed.



(** C2, on the code. A command named [Ping] survives the filter, yet
    asking the single-command view for that exact name gets the not
    found message: the request is lower-cased, the keys are not. *)
Theorem exact_name_lookup_misses :
  let self := ex_default [ex_Ping] ex_user in
  _gather ex_deny self (Some ex_ctx) = Some [(lit "Ping", ex_Ping)]
  /\ dict_get [(lit "Ping", ex_Ping)] (qualified_name ex_Ping) = Some ex_Ping
  /\ lower (qualified_name ex_Ping) = Some (lit "ping")
  /\ _help_specific ex_deny self ex_ctx (qualified_name ex_Ping)
     = Some (Reply (lit "Sorry! No command called `Ping` was found.")).
Proof. repeat split. Qed.

(** For a command whose qualified name is in lower case and is its
    alone, the lookup by that name finds it exactly when the filter
    keeps it. *)
Lemma lower_case_name_lookup run_check self ctx out c :
  _gather run_check self (Some ctx) = Some out ->
  In c (dict_values (commands (_client self))) ->
  (forall c', In c' (dict_values (commands (_client self))) ->
              qualified_name c' = qualified_name c -> c' = c) ->
  dict_get out (qualified_name c) = Some c <-> In c (dict_values out).
Proof.
  intros G Hin Huniq. split.
  - apply dict_get_In.
  - intros H. apply (@gather_values _ _ _ _ c G) in H.
    destruct H as [_ Hv].
    apply (@gather_get_visible _ _ _ _ c G); assumption.
Qed.

(** C5. For the commands that survived [_gather], the list view sends a
    paginator exactly when the lines joined by line feeds are more than
    500 characters long: the paginator holds the lines, has page size
    500 and the formatted [embed_title] as title. Otherwise it replies
    with one embed with the same title and the joined lines as
    description. With no surviving command the joined text is empty and
    the embed has the empty description. *)
Theorem list_view_paginates_over_500 :
  forall (run_check : Check -> Context -> bool) (self : HelpCommand)
         (ctx : Context) (cmds : dict Command) (t : str),
    _gather run_check self (Some ctx) = Some cmds ->
    format_kw (embed_title self) (lit "username")
              (username (user (_client self))) = Some t ->
    let output := help_lines self ctx cmds in
    ((exists p, _help_list run_check self ctx = Some (PaginatorSend p))
     <-> 500 < length (join nl output))
    /\ (500 < length (join nl output) ->
        _help_list run_check self ctx
        = Some (PaginatorSend {| content := output; page_size := 500;
                                 default_title := t |}))
    /\ (length (join nl output) <= 500 ->
        _help_list run_check self ctx
        = Some (ReplyEmbed {| title := t; description := join nl output;
                              color := BLURPLE |}))
    /\ (cmds = [] ->
        length (join nl output) = 0
        /\ _help_list run_check self ctx
           = Some (ReplyEmbed {| title := t; description := [];
                                 color := BLURPLE |})).
Proof.
  intros run_check self ctx cmds t Hg Ht output.
  assert (Hp : 500 < length (join nl output) ->
    _help_list run_check self ctx
    = Some (PaginatorSend {| content := output; page_size := 500;
                             default_title := t |})).
  { intros H. unfold _help_list. rewrite Hg. cbv zeta. fold output.
    apply Nat.ltb_lt in H. rewrite H, Ht. reflexivity. }
  assert (He : length (join nl output) <= 500 ->
    _help_list run_check self ctx
    = Some (ReplyEmbed {| title := t; description := join nl output;
                          color := BLURPLE |})).
  { intros H. unfold _help_list. rewrite Hg. cbv zeta. fold output.
    apply Nat.ltb_ge in H. rewrite H, Ht. reflexivity. }
  repeat split.
  - intros [p Hsent].
    destruct (Nat.lt_ge_cases 500 (length (join nl output))) as [H|H];
      [exact H|].
    rewrite (He H) in Hsent. discriminate.
  - intros H. eexists. apply Hp. exact H.
  - exact Hp.
  - exact He.
  - subst output. rewrite H. reflexivity.
  - rewrite He; subst output; rewrite H; [reflexivity | simpl; lia].
Qed.

(** Two commands make one embed; the thirty commands of [ex_many]
    make 589 characters and a paginator. *)
Lemma list_view_paginates_over_500_witness :
  _help_list ex_deny (ex_default [ex_ping; ex_ban] ex_user) ex_ctx
  = Some (ReplyEmbed
            {| title := lit "molter Help Command";
               description := lit "`ping`" ++ nl ++ lit "Pong" ++ nl
                              ++ lit "`ban`" ++ nl ++ lit "Ban a member";
               color := BLURPLE |})
  /\ _help_list ex_deny (ex_default ex_many ex_user) ex_ctx
     = Some (PaginatorSend
               {| content :=
                    map (fun c => lit "`" ++ qualified_name c ++ lit "`"
                                  ++ nl ++ lit "Does things") ex_many;
                  page_size := 500;
                  default_title := lit "molter Help Command" |}).
Proof.
  split.
  - apply (proj1 (proj2 (proj2
      (list_view_paginates_over_500 ex_deny
         (ex_default [ex_ping; ex_ban] ex_user) ex_ctx
         (cmds := [(lit "ping", ex_ping); (lit "ban", ex_ban)])
         eq_refl eq_refl)))).
    vm_compute. lia.
  - apply (proj1 (proj2
      (list_view_paginates_over_500 ex_deny
         (ex_default ex_many ex_user) ex_ctx
         (cmds := map (fun c => (qualified_name c, c)) ex_many)
         eq_refl eq_refl))).
    vm_compute. lia.
Defined.

(** ** [str.replace] on text cut at its at signs *)

Lemma segs_exist (t : str) :
  exists s ss, t = unsegs s ss /\ noat s = true /\ forallb noat ss = true.
Proof.
  induction t as [|c t (s & ss & -> & Hs & Hss)].
  - exists [], []. repeat split.
  - destruct (N.eqb c at_sign) eqn:E.
    + apply N.eqb_eq in E. subst c. exists [], (s :: ss).
      split; [reflexivity|]. split; [reflexivity|].
      simpl. rewrite Hs, Hss. reflexivity.
    + exists (c :: s), ss.
      split; [reflexivity|]. split; [|exact Hss].
      simpl. rewrite E, Hs. reflexivity.
Qed.

Lemma starts_with_nil (t : str) : starts_with t [] = true.
Proof. destruct t; reflexivity. Qed.

Lemma starts_with_app (p r : str) : starts_with (p ++ r) p = true.
Proof.
  induction p as [|a p IH]; [apply starts_with_nil|].
  simpl. rewrite N.eqb_refl. exact IH.
Qed.

Lemma starts_with_split (p : str) : forall t,
  starts_with t p = true -> t = p ++ skipn (length p) t.
Proof.
  induction p as [|a p IH]; intros t H; [reflexivity|].
  destruct t as [|b t]; [discriminate|]. simpl in H.
  apply andb_true_iff in H. destruct H as [E H].
  apply N.eqb_eq in E. subst b. simpl. f_equal. apply IH, H.
Qed.

(** Up to the next at sign, a text without one starts the text. *)
Lemma starts_with_seg (p : str) : forall s ss,
  noat p = true ->
  starts_with (unsegs s ss) p = starts_with s p.
Proof.
  unfold unsegs.
  induction p as [|a p IH]; intros s ss Hp.
  - rewrite !starts_with_nil. reflexivity.
  - simpl in Hp. apply andb_true_iff in Hp. destruct Hp as [Ha Hp].
    apply negb_true_iff in Ha.
    destruct s as [|b s].
    + destruct ss as [|s1 ss]; [reflexivity|].
      simpl. rewrite Ha. reflexivity.
    + simpl. rewrite IH by assumption. reflexivity.
Qed.

Lemma starts_with_removelast (p : str) : forall s,
  starts_with (removelast s) p = true -> starts_with s p = true.
Proof.
  induction p as [|a p IH]; intros s H; [apply starts_with_nil|].
  destruct s as [|b s]; [discriminate|].
  destruct s as [|c s]; [discriminate|].
  change (removelast (b :: c :: s)) with (b :: removelast (c :: s)) in H.
  remember (c :: s) as s' eqn:Es'. clear Es'.
  cbn [starts_with] in *. apply andb_true_iff in H. destruct H as [E H].
  rewrite E. apply IH, H.
Qed.

(** A text that neither starts nor is started by [p] does not start
    with [p] whatever follows it. *)
Lemma starts_with_incomparable (q : str) : forall p r,
  starts_with q p = false -> starts_with p q = false ->
  starts_with (q ++ r) p = false.
Proof.
  induction q as [|a q IH]; intros p r H1 H2.
  - rewrite starts_with_nil in H2. discriminate.
  - destruct p as [|b p]; [discriminate|].
    simpl in *. destruct (N.eqb b a) eqn:E; [|reflexivity].
    apply N.eqb_eq in E. subst b. rewrite N.eqb_refl in H2.
    simpl in *. apply IH; assumption.
Qed.

Lemma replace_scan_skip (old new a : str) : forall r,
  replace_scan old new (length a) (a ++ r) = replace_scan old new 0 r.
Proof. induction a as [|c a IH]; intros r; [reflexivity|]. simpl. apply IH. Qed.

Lemma replace_scan_hit (o : char) (os new r : str) :
  replace_scan (o :: os) new 0 ((o :: os) ++ r)
  = new ++ replace_scan (o :: os) new 0 r.
Proof.
  change ((o :: os) ++ r) with (o :: os ++ r).
  cbn [replace_scan].
  change (starts_with (o :: os ++ r) (o :: os))
    with (starts_with ((o :: os) ++ r) (o :: os)).
  rewrite starts_with_app. f_equal.
  replace (length (o :: os) - 1) with (length os) by (simpl; lia).
  apply replace_scan_skip.
Qed.

Lemma replace_scan_miss (old new : str) (c : char) (t : str) :
  starts_with (c :: t) old = false ->
  replace_scan old new 0 (c :: t) = c :: replace_scan old new 0 t.
Proof. intros H. cbn [replace_scan]. rewrite H. reflexivity. Qed.

Lemma noat_app (a b : str) : noat (a ++ b) = noat a && noat b.
Proof. apply forallb_app. Qed.

Lemma noat_skipn (n : nat) : forall s, noat s = true -> noat (skipn n s) = true.
Proof.
  induction n as [|n IH]; intros s H; [exact H|].
  destruct s as [|c s]; [reflexivity|]. simpl in H.
  apply andb_true_iff in H. apply IH, H.
Qed.

Lemma noat_removelast (s : str) : noat s = true -> noat (removelast s) = true.
Proof.
  induction s as [|c s IH]; intros H; [reflexivity|].
  simpl in H. apply andb_true_iff in H. destruct H as [Hc Hs].
  destruct s as [|d s]; [reflexivity|].
  change (removelast (c :: d :: s)) with (c :: removelast (d :: s)).
  simpl. simpl in Hc. rewrite Hc. apply IH, Hs.
Qed.

(** *** Tokens that start at the at sign *)

Lemma replace_scan_head1 (p new s : str) : forall r,
  noat s = true ->
  replace_scan (at_sign :: p) new 0 (s ++ r)
  = s ++ replace_scan (at_sign :: p) new 0 r.
Proof.
  induction s as [|c s IH]; intros r Hs; [reflexivity|].
  simpl in Hs. apply andb_true_iff in Hs. destruct Hs as [Hc Hs].
  apply negb_true_iff in Hc.
  change ((c :: s) ++ r) with (c :: s ++ r).
  rewrite replace_scan_miss.
  - rewrite IH by assumption. reflexivity.
  - cbn [starts_with]. rewrite N.eqb_sym, Hc. reflexivity.
Qed.

Lemma unsegs_app (a b : str) (ss : list str) :
  unsegs (a ++ b) ss = a ++ unsegs b ss.
Proof. unfold unsegs. rewrite app_assoc. reflexivity. Qed.

Lemma unsegs_cons (s s1 : str) (ss : list str) :
  unsegs s (s1 :: ss) = s ++ at_sign :: unsegs s1 ss.
Proof. reflexivity. Qed.

Lemma unsegs_nil (s : str) : unsegs s [] = s.
Proof. apply app_nil_r. Qed.

Lemma replace_segs1 (p q : str) :
  noat p = true ->
  forall ss s,
    noat s = true -> forallb noat ss = true ->
    replace_scan (at_sign :: p) (at_sign :: q) 0 (unsegs s ss)
    = unsegs s (map (sub1 p q) ss).
Proof.
  intros Hp. induction ss as [|s1 ss IH]; intros s Hs Hss.
  - simpl map. rewrite unsegs_nil.
    rewrite <- (app_nil_r s) at 1.
    rewrite replace_scan_head1 by assumption. apply app_nil_r.
  - simpl in Hss. apply andb_true_iff in Hss. destruct Hss as [Hs1 Hss].
    simpl map. rewrite !unsegs_cons, replace_scan_head1 by assumption.
    f_equal. unfold sub1 at 1.
    destruct (starts_with s1 p) eqn:E.
    + pose proof (starts_with_split _ _ E) as Es.
      pose proof (noat_skipn (length p) _ Hs1) as Hr.
      remember (skipn (length p) s1) as r eqn:Er. clear Er.
      rewrite Es, !unsegs_app.
      change (at_sign :: p ++ unsegs r ss)
        with ((at_sign :: p) ++ unsegs r ss).
      rewrite replace_scan_hit, (IH r Hr Hss). reflexivity.
    + rewrite replace_scan_miss, (IH s1 Hs1 Hss); [reflexivity|].
      cbn [starts_with]. rewrite N.eqb_refl, starts_with_seg, E by assumption.
      reflexivity.
Qed.

(** *** Tokens that start with [<] before the at sign *)

Lemma ends_lt_cons (c d : char) (s : str) :
  ends_lt (c :: d :: s) = ends_lt (d :: s).
Proof. reflexivity. Qed.

Lemma ends_lt_split (s : str) :
  ends_lt s = true -> s = removelast s ++ [lt_sign].
Proof.
  intros H. destruct s as [|c s]; [discriminate|].
  apply N.eqb_eq in H. rewrite <- H.
  apply app_removelast_last. discriminate.
Qed.

Lemma replace_scan_noat2 (p new s : str) :
  noat s = true ->
  replace_scan (lt_sign :: at_sign :: p) new 0 s = s.
Proof.
  induction s as [|c s IH]; intros Hs; [reflexivity|].
  simpl in Hs. apply andb_true_iff in Hs. destruct Hs as [_ Hs].
  rewrite replace_scan_miss, (IH Hs); [reflexivity|].
  destruct s as [|d s]; cbn [starts_with].
  - apply andb_false_r.
  - simpl in Hs. apply andb_true_iff in Hs. destruct Hs as [Hd _].
    apply negb_true_iff in Hd. rewrite (N.eqb_sym at_sign), Hd.
    apply andb_false_r.
Qed.

Lemma replace_scan_head2 (p new s : str) : forall r,
  noat s = true ->
  replace_scan (lt_sign :: at_sign :: p) new 0 (s ++ at_sign :: r)
  = if ends_lt s
    then removelast s
         ++ replace_scan (lt_sign :: at_sign :: p) new 0
              (lt_sign :: at_sign :: r)
    else s ++ at_sign
           :: replace_scan (lt_sign :: at_sign :: p) new 0 r.
Proof.
  induction s as [|c s IH]; intros r Hs.
  - change (ends_lt []) with false. cbv iota.
    change ([] ++ at_sign :: r) with (at_sign :: r).
    rewrite replace_scan_miss; reflexivity.
  - simpl in Hs. apply andb_true_iff in Hs. destruct Hs as [_ Hs].
    destruct s as [|d s].
    + change (ends_lt [c]) with (N.eqb c lt_sign).
      change ([c] ++ at_sign :: r) with (c :: at_sign :: r).
      destruct (N.eqb c lt_sign) eqn:E.
      * apply N.eqb_eq in E. subst c. reflexivity.
      * rewrite replace_scan_miss.
        -- rewrite replace_scan_miss; reflexivity.
        -- cbn [starts_with]. rewrite N.eqb_sym, E. reflexivity.
    + rewrite ends_lt_cons.
      change (removelast (c :: d :: s)) with (c :: removelast (d :: s)).
      change ((c :: d :: s) ++ at_sign :: r)
        with (c :: (d :: s) ++ at_sign :: r).
      rewrite replace_scan_miss.
      * rewrite (IH r Hs). destruct (ends_lt (d :: s)); reflexivity.
      * simpl in Hs. apply andb_true_iff in Hs. destruct Hs as [Hd _].
        apply negb_true_iff in Hd.
        change ((d :: s) ++ at_sign :: r) with (d :: s ++ at_sign :: r).
        cbn [starts_with]. rewrite (N.eqb_sym at_sign), Hd.
        apply andb_false_r.
Qed.

Lemma replace_segs2 (p q : str) :
  noat p = true ->
  forall ss s,
    noat s = true -> forallb noat ss = true ->
    replace_scan (lt_sign :: at_sign :: p) (at_sign :: q) 0 (unsegs s ss)
    = unsegs (trim p s ss) (sub2 p q s ss).
Proof.
  intros Hp. induction ss as [|s1 ss IH]; intros s Hs Hss.
  - cbn [trim sub2]. rewrite unsegs_nil. apply replace_scan_noat2, Hs.
  - simpl in Hss. apply andb_true_iff in Hss. destruct Hss as [Hs1 Hss].
    rewrite unsegs_cons, replace_scan_head2 by assumption.
    cbn [trim sub2].
    assert (Hsw : starts_with (lt_sign :: at_sign :: unsegs s1 ss)
                    (lt_sign :: at_sign :: p) = starts_with s1 p).
    { cbn [starts_with]. rewrite !N.eqb_refl. simpl.
      apply starts_with_seg, Hp. }
    destruct (ends_lt s) eqn:El; cbn [andb].
    + destruct (starts_with s1 p) eqn:E.
      * pose proof (starts_with_split _ _ E) as Es.
        pose proof (noat_skipn (length p) _ Hs1) as Hr.
        remember (skipn (length p) s1) as r eqn:Er. clear Er.
        rewrite Es at 1. rewrite unsegs_app.
        change (lt_sign :: at_sign :: p ++ unsegs r ss)
          with ((lt_sign :: at_sign :: p) ++ unsegs r ss).
        rewrite replace_scan_hit, (IH r Hr Hss), unsegs_cons, unsegs_app.
        reflexivity.
      * rewrite replace_scan_miss by (rewrite Hsw; reflexivity).
        rewrite replace_scan_miss by reflexivity.
        rewrite (IH s1 Hs1 Hss), unsegs_cons.
        rewrite (ends_lt_split _ El) at 2. rewrite <- app_assoc.
        reflexivity.
    + rewrite (IH s1 Hs1 Hss), unsegs_cons. reflexivity.
Qed.

(** *** Texts free of a token *)

Lemma sub1_clean (p q : str) (ss : list str) :
  clean1 p ss = true -> map (sub1 p q) ss = ss.
Proof.
  induction ss as [|s ss IH]; intros H; [reflexivity|].
  simpl in H. apply andb_true_iff in H. destruct H as [Hs Hss].
  apply negb_true_iff in Hs. simpl. unfold sub1 at 1.
  rewrite Hs, (IH Hss). reflexivity.
Qed.

Lemma sub2_clean (p q : str) : forall ss s,
  clean2 p s ss = true -> trim p s ss = s /\ sub2 p q s ss = ss.
Proof.
  induction ss as [|s1 ss IH]; intros s H; [split; reflexivity|].
  simpl in H. apply andb_true_iff in H. destruct H as [Hs Hss].
  apply negb_true_iff in Hs. cbn [trim sub2]. rewrite Hs.
  destruct (IH s1 Hss) as [-> ->]. split; reflexivity.
Qed.

Lemma trim_cases (p s : str) (ss : list str) :
  trim p s ss = s \/ trim p s ss = removelast s.
Proof.
  destruct ss as [|s1 ss]; [left; reflexivity|]. simpl.
  destruct (ends_lt s && starts_with s1 p); auto.
Qed.

Lemma starts_with_trim (p0 p s : str) (ss : list str) :
  starts_with (trim p s ss) p0 = true -> starts_with s p0 = true.
Proof.
  destruct (trim_cases p s ss) as [-> | ->]; [auto|].
  apply starts_with_removelast.
Qed.

Lemma noat_trim (p s : str) (ss : list str) :
  noat s = true -> noat (trim p s ss) = true.
Proof.
  intros H. destruct (trim_cases p s ss) as [-> | ->]; [exact H|].
  apply noat_removelast, H.
Qed.

Lemma noat_sub1 (p q : str) (ss : list str) :
  noat q = true -> forallb noat ss = true ->
  forallb noat (map (sub1 p q) ss) = true.
Proof.
  intros Hq. induction ss as [|s ss IH]; intros H; [reflexivity|].
  simpl in H. apply andb_true_iff in H. destruct H as [Hs Hss].
  simpl. rewrite (IH Hss), andb_true_r. unfold sub1.
  destruct (starts_with s p); [|exact Hs].
  rewrite noat_app, Hq. apply noat_skipn, Hs.
Qed.

Lemma noat_sub2 (p q : str) :
  noat q = true ->
  forall ss s, forallb noat ss = true -> forallb noat (sub2 p q s ss) = true.
Proof.
  intros Hq. induction ss as [|s1 ss IH]; intros s H; [reflexivity|].
  simpl in H. apply andb_true_iff in H. destruct H as [Hs1 Hss].
  cbn [sub2]. destruct (ends_lt s && starts_with s1 p); simpl.
  - rewrite (IH _ Hss), andb_true_r, noat_app, Hq.
    apply noat_trim, noat_skipn, Hs1.
  - rewrite (IH _ Hss), andb_true_r. apply noat_trim, Hs1.
Qed.

Lemma clean1_sub1 (p0 p q : str) (ss : list str) :
  (forall r, starts_with (q ++ r) p0 = false) ->
  p0 = p \/ clean1 p0 ss = true ->
  clean1 p0 (map (sub1 p q) ss) = true.
Proof.
  intros Hq H. induction ss as [|s ss IH]; [reflexivity|].
  assert (Hss : p0 = p \/ clean1 p0 ss = true).
  { destruct H as [H|H]; [left; exact H|right].
    simpl in H. apply andb_true_iff in H. apply H. }
  simpl. rewrite (IH Hss), andb_true_r. unfold sub1.
  destruct (starts_with s p) eqn:E.
  - rewrite Hq. reflexivity.
  - destruct H as [-> | H].
    + rewrite E. reflexivity.
    + simpl in H. apply andb_true_iff in H. apply H.
Qed.

Lemma clean1_sub2 (p0 p q : str) :
  (forall r, starts_with (q ++ r) p0 = false) ->
  forall ss s, clean1 p0 ss = true -> clean1 p0 (sub2 p q s ss) = true.
Proof.
  intros Hq. induction ss as [|s1 ss IH]; intros s H; [reflexivity|].
  simpl in H. apply andb_true_iff in H. destruct H as [Hs1 Hss].
  cbn [sub2]. destruct (ends_lt s && starts_with s1 p); simpl.
  - rewrite (IH _ Hss), Hq. reflexivity.
  - rewrite (IH _ Hss), andb_true_r.
    destruct (starts_with (trim p s1 ss) p0) eqn:E; [|reflexivity].
    apply starts_with_trim in E. rewrite E in Hs1. discriminate.
Qed.

Lemma ends_lt_app (a b : str) :
  ends_lt (a ++ b) = match b with [] => ends_lt a | _ => ends_lt b end.
Proof.
  destruct b as [|c b]; [rewrite app_nil_r; reflexivity|].
  unfold ends_lt. f_equal.
  induction a as [|x a IH]; [reflexivity|].
  destruct a as [|y a]; exact IH.
Qed.

Lemma ends_lt_skipn (n : nat) : forall s,
  ends_lt (skipn n s) = true -> ends_lt s = true.
Proof.
  induction n as [|n IH]; intros s H; [exact H|].
  destruct s as [|c s]; [exact H|]. simpl in H.
  destruct s as [|d s]; [destruct n; discriminate|].
  rewrite ends_lt_cons. apply IH, H.
Qed.

Lemma clean2_head (p0 r s : str) (ss : list str) :
  (ends_lt r = true -> ends_lt s = true) ->
  clean2 p0 s ss = true -> clean2 p0 r ss = true.
Proof.
  intros Hr. destruct ss as [|s1 ss]; [reflexivity|]. simpl.
  intros H. apply andb_true_iff in H. destruct H as [H1 H2].
  rewrite H2, andb_true_r. destruct (ends_lt r); [|reflexivity].
  rewrite Hr in H1 by reflexivity. exact H1.
Qed.

Lemma clean2_sub2 (p0 p q : str) :
  (forall r, starts_with (q ++ r) p0 = false) ->
  ends_lt q = false ->
  forall ss s pre,
    ends_lt pre = false ->
    p0 = p \/ clean2 p0 s ss = true ->
    clean2 p0 (pre ++ trim p s ss) (sub2 p q s ss) = true.
Proof.
  intros Hq Hql. induction ss as [|s1 ss IH]; intros s pre Hpre H;
    [reflexivity|].
  assert (Hss : p0 = p \/ clean2 p0 s1 ss = true).
  { destruct H as [H|H]; [left; exact H|right].
    simpl in H. apply andb_true_iff in H. apply H. }
  cbn [trim sub2]. destruct (ends_lt s && starts_with s1 p) eqn:M.
  - cbn [clean2]. rewrite Hq, andb_false_r. simpl.
    apply IH; [exact Hql|].
    destruct Hss as [Hss|Hss]; [left; exact Hss|right].
    apply clean2_head with (s := s1); [apply ends_lt_skipn | exact Hss].
  - cbn [clean2].
    rewrite (IH s1 [] eq_refl Hss : clean2 p0 (trim p s1 ss) _ = true),
      andb_true_r.
    apply negb_true_iff.
    destruct (starts_with (trim p s1 ss) p0) eqn:E; [|apply andb_false_r].
    apply starts_with_trim in E. rewrite andb_true_r, ends_lt_app.
    destruct s as [|c s]; [exact Hpre|].
    destruct (ends_lt (c :: s)) eqn:El; [|reflexivity].
    destruct H as [-> | H].
    + rewrite E in M. discriminate.
    + simpl in H. rewrite El, E in H. discriminate.
Qed.

(** *** The four substitutions *)

Lemma uint_codes_digits (d : Decimal.uint) : digits (uint_codes d) = true.
Proof. induction d; simpl; auto. Qed.

Lemma digits_noat (s : str) : digits s = true -> noat s = true.
Proof.
  induction s as [|c s IH]; intros H; [reflexivity|].
  simpl in H. apply andb_true_iff in H. destruct H as [Hc Hs].
  simpl. rewrite (IH Hs), andb_true_r.
  apply andb_true_iff in Hc. destruct Hc as [_ Hc].
  apply N.leb_le in Hc. apply negb_true_iff, N.eqb_neq.
  unfold at_sign. lia.
Qed.

Lemma mappings_items (self : HelpCommand) :
  let u := user (_client self) in
  mappings self
  = [ (lit "@everyone", lit "@" ++ zwsp :: lit "everyone");
      (lit "@here", lit "@" ++ zwsp :: lit "here");
      (lit "<@" ++ str_of_int (id u) ++ lit ">", lit "@" ++ username u);
      (lit "<@!" ++ str_of_int (id u) ++ lit ">", lit "@" ++ username u) ].
Proof.
  intros u. unfold mappings. fold u.
  pose proof (uint_codes_digits (N.to_uint (id u))) as Hd.
  fold (str_of_int (id u)) in Hd.
  remember (str_of_int (id u)) as d eqn:Ed. clear Ed.
  cbn [dict_set].
  rewrite (str_eqb_neq (a := lit "@everyone") (b := lit "@here"))
    by discriminate.
  cbn [dict_set].
  rewrite (str_eqb_neq (a := lit "@everyone")
             (b := lit "<@" ++ d ++ lit ">")) by discriminate.
  rewrite (str_eqb_neq (a := lit "@here")
             (b := lit "<@" ++ d ++ lit ">")) by discriminate.
  cbn [dict_set].
  rewrite (str_eqb_neq (a := lit "@everyone")
             (b := lit "<@!" ++ d ++ lit ">")) by discriminate.
  rewrite (str_eqb_neq (a := lit "@here")
             (b := lit "<@!" ++ d ++ lit ">")) by discriminate.
  rewrite (str_eqb_neq (a := lit "<@" ++ d ++ lit ">")
             (b := lit "<@!" ++ d ++ lit ">")); [reflexivity|].
  simpl. intros H. injection H as H.
  destruct d as [|c d]; [discriminate|].
  injection H as -> _. discriminate.
Qed.

Section Four.
Variable u : str.
Variable d : str.
Hypothesis d_digits : digits d = true.
Hypothesis u_noat : noat u = true.
Hypothesis u_lt : ends_lt u = false.
Hypothesis u_everyone : comparable u (lit "everyone") = false.
Hypothesis u_here : comparable u (lit "here") = false.
Hypothesis u_id : comparable u (d ++ lit ">") = false.
Hypothesis u_nick : comparable u (lit "!" ++ d ++ lit ">") = false.

Lemma u_starts (p r : str) :
  comparable u p = false -> starts_with (u ++ r) p = false.
Proof.
  intros H. apply orb_false_iff in H. destruct H as [H1 H2].
  apply starts_with_incomparable; assumption.
Qed.

Lemma noat_id : noat (d ++ lit ">") = true.
Proof. rewrite noat_app, (digits_noat _ d_digits). reflexivity. Qed.

Lemma noat_nick : noat (lit "!" ++ d ++ lit ">") = true.
Proof. rewrite !noat_app, (digits_noat _ d_digits). reflexivity. Qed.

Lemma four_cleans (s : str) (ss : list str) :
  noat s = true -> forallb noat ss = true ->
  exists s' ss', four u d (unsegs s ss) = unsegs s' ss' /\ clean d s' ss' = true.
Proof.
  intros Hs Hss. unfold four.
  (* @everyone *)
  change (lit "@everyone") with (at_sign :: lit "everyone").
  change (lit "@" ++ zwsp :: lit "everyone")
    with (at_sign :: zwsp :: lit "everyone").
  rewrite replace_segs1 by (assumption || reflexivity).
  set (ssA := map (sub1 (lit "everyone") (zwsp :: lit "everyone")) ss).
  assert (HssA : forallb noat ssA = true)
    by (apply noat_sub1; [reflexivity | exact Hss]).
  assert (EA : clean1 (lit "everyone") ssA = true)
    by (apply clean1_sub1; [reflexivity | left; reflexivity]).
  (* @here *)
  change (lit "@here") with (at_sign :: lit "here").
  change (lit "@" ++ zwsp :: lit "here") with (at_sign :: zwsp :: lit "here").
  rewrite replace_segs1 by (assumption || reflexivity).
  set (ssB := map (sub1 (lit "here") (zwsp :: lit "here")) ssA).
  assert (HssB : forallb noat ssB = true)
    by (apply noat_sub1; [reflexivity | exact HssA]).
  assert (EB : clean1 (lit "everyone") ssB = true)
    by (apply clean1_sub1; [reflexivity | right; exact EA]).
  assert (HB : clean1 (lit "here") ssB = true)
    by (apply clean1_sub1; [reflexivity | left; reflexivity]).
  (* <@id> *)
  change (lit "<@" ++ d ++ lit ">")
    with (lt_sign :: at_sign :: d ++ lit ">").
  change (lit "@" ++ u) with (at_sign :: u).
  rewrite (@replace_segs2 _ u noat_id ssB s Hs HssB).
  set (sC := trim (d ++ lit ">") s ssB).
  set (ssC := sub2 (d ++ lit ">") u s ssB).
  assert (HsC : noat sC = true) by (apply noat_trim, Hs).
  assert (HssC : forallb noat ssC = true)
    by (apply noat_sub2; assumption).
  assert (EC : clean1 (lit "everyone") ssC = true)
    by (apply clean1_sub2;
        [intros r; apply u_starts, u_everyone | exact EB]).
  assert (HC : clean1 (lit "here") ssC = true)
    by (apply clean1_sub2; [intros r; apply u_starts, u_here | exact HB]).
  assert (IC : clean2 (d ++ lit ">") sC ssC = true).
  { apply (@clean2_sub2 (d ++ lit ">") (d ++ lit ">") u
             (fun r => u_starts _ r u_id) u_lt ssB s [] eq_refl
             (or_introl eq_refl)). }
  (* <@!id> *)
  change (lit "<@!" ++ d ++ lit ">")
    with (lt_sign :: at_sign :: lit "!" ++ d ++ lit ">").
  rewrite (@replace_segs2 _ u noat_nick ssC sC HsC HssC).
  exists (trim (lit "!" ++ d ++ lit ">") sC ssC),
         (sub2 (lit "!" ++ d ++ lit ">") u sC ssC).
  split; [reflexivity|]. unfold clean.
  rewrite noat_trim by exact HsC.
  rewrite noat_sub2 by assumption.
  rewrite !clean1_sub2
    by (assumption || (intros r; apply u_starts; assumption)).
  rewrite (@clean2_sub2 (d ++ lit ">") (lit "!" ++ d ++ lit ">") u
             (fun r => u_starts _ r u_id) u_lt ssC sC [] eq_refl
             (or_intror IC)
           : clean2 _ (trim _ sC ssC) _ = true).
  rewrite (@clean2_sub2 (lit "!" ++ d ++ lit ">") (lit "!" ++ d ++ lit ">") u
             (fun r => u_starts _ r u_nick) u_lt ssC sC [] eq_refl
             (or_introl eq_refl)
           : clean2 _ (trim _ sC ssC) _ = true).
  reflexivity.
Qed.

Lemma four_clean (s : str) (ss : list str) :
  clean d s ss = true -> four u d (unsegs s ss) = unsegs s ss.
Proof.
  unfold clean. intros H.
  repeat (apply andb_true_iff in H; destruct H as [H ?]).
  unfold four.
  change (lit "@everyone") with (at_sign :: lit "everyone").
  change (lit "@" ++ zwsp :: lit "everyone")
    with (at_sign :: zwsp :: lit "everyone").
  rewrite replace_segs1, sub1_clean by (assumption || reflexivity).
  change (lit "@here") with (at_sign :: lit "here").
  change (lit "@" ++ zwsp :: lit "here") with (at_sign :: zwsp :: lit "here").
  rewrite replace_segs1, sub1_clean by (assumption || reflexivity).
  change (lit "<@" ++ d ++ lit ">")
    with (lt_sign :: at_sign :: d ++ lit ">").
  change (lit "@" ++ u) with (at_sign :: u).
  rewrite (@replace_segs2 _ u noat_id ss s) by assumption.
  destruct (sub2_clean (d ++ lit ">") u ss s) as [-> ->]; [assumption|].
  change (lit "<@!" ++ d ++ lit ">")
    with (lt_sign :: at_sign :: lit "!" ++ d ++ lit ">").
  rewrite (@replace_segs2 _ u noat_nick ss s) by assumption.
  destruct (sub2_clean (lit "!" ++ d ++ lit ">") u ss s) as [-> ->];
    [assumption|].
  reflexivity.
Qed.

Lemma four_twice (text : str) : four u d (four u d text) = four u d text.
Proof.
  destruct (segs_exist text) as (s & ss & -> & Hs & Hss).
  destruct (four_cleans s ss Hs Hss) as (s' & ss' & -> & Hc).
  apply four_clean, Hc.
Qed.
End Four.

(** ** Sanitising twice *)

Lemma sanitise_mentions_four (self : HelpCommand) (text : str) (s : Store) :
  _sanitise_mentions self text s
  = (four (username (user (_client self)))
          (str_of_int (id (user (_client self)))) text, s).
Proof.
  rewrite sanitise_mentions_run, mappings_items. reflexivity.
Qed.

(** C4, on the code. For the bot named [he] with id 1, sanitising
    [<@1>re] gives [@here], a mention that pings, and sanitising that
    again gives another text, with a zero width space in it. *)
Lemma sanitise_twice_differs :
  let self := ex_default [ex_ping] {| id := 1%N; username := lit "he" |} in
  let s := {| st_cmd := ex_ping; st_ctx := ex_ctx |} in
  fst (_sanitise_mentions self (lit "<@1>re") s) = lit "@here"
  /\ fst (_sanitise_mentions self (lit "@here") s)
     = lit "@" ++ zwsp :: lit "here".
Proof. split; reflexivity. Qed.

(** X16. Sanitising the mentions of a text twice gives what
    sanitising it once gives, for every text and user id and for every
    bot username that holds no at sign, does not end with [<], and
    neither starts nor is the start of [everyone], [here], the id
    followed by [>], or [!] followed by the id and [>]. *)
Theorem sanitise_twice_safe_username :
  forall (self : HelpCommand) (text : str) (s : Store),
    safe_username (user (_client self)) = true ->
    let r := _sanitise_mentions self text s in
    _sanitise_mentions self (fst r) (snd r) = r.
Proof.
  intros self text s Hsafe r. subst r.
  rewrite !sanitise_mentions_four. cbn [fst snd].
  unfold safe_username in Hsafe.
  repeat (apply andb_true_iff in Hsafe; destruct Hsafe as [Hsafe ?]).
  repeat match goal with
         | H : negb _ = true |- _ => apply negb_true_iff in H
         end.
  f_equal. apply four_twice; try assumption.
  apply uint_codes_digits.
Qed.

(** The bot named [molter] with id 1 on a text with all four tokens. *)
Lemma sanitise_twice_safe_username_witness :
  let self := ex_default [ex_ping] ex_user in
  let s := {| st_cmd := ex_ping; st_ctx := ex_ctx |} in
  let r := _sanitise_mentions self (lit "<@1> @everyone <@!1>re @here") s in
  fst r = lit "@molter @" ++ zwsp :: lit "everyone @molterre @"
          ++ zwsp :: lit "here"
  /\ _sanitise_mentions self (fst r) (snd r) = r.
Proof.
  intros self s r. split; [reflexivity|].
  apply (sanitise_twice_safe_username self _ s). reflexivity.
Defined.

(** * Further properties *)

(** ** More on what [_gather] returns *)

Lemma dict_get_set_some (V : Type) (d : dict V) (k k' : str) (v : V) :
  dict_get d k' <> None -> dict_get (dict_set d k v) k' <> None.
Proof.
  intros H. destruct (list_eq_dec N.eq_dec k k') as [<-|E].
  - rewrite dict_get_set_same. discriminate.
  - rewrite dict_get_set_other by assumption. exact H.
Qed.

Lemma dict_get_keys (V : Type) (d : dict V) (k : str) :
  dict_get d k = None <-> ~ In k (dict_keys d).
Proof.
  induction d as [|[k0 v0] d IH]; simpl.
  - tauto.
  - destruct (str_eqb k0 k) eqn:E.
    + apply str_eqb_eq in E. split; [discriminate|]. intros H. tauto.
    + split.
      * intros H [H0|H0]; [|apply IH in H; tauto].
        apply str_eqb_eq in H0. congruence.
      * intros H. apply IH. tauto.
Qed.

Lemma dict_set_fresh (V : Type) (d : dict V) (k : str) (v : V) :
  dict_get d k = None -> dict_set d k v = d ++ [(k, v)].
Proof.
  induction d as [|[k0 v0] d IH]; simpl; [reflexivity|].
  destruct (str_eqb k0 k); [discriminate|].
  intros H. rewrite (IH H). reflexivity.
Qed.

Lemma keyed_present (l : list Command) : forall d k,
  dict_get d k <> None \/ (exists c, In c l /\ qualified_name c = k) ->
  dict_get (keyed l d) k <> None.
Proof.
  induction l as [|x l IH]; intros d k H.
  - destruct H as [H|(c & [] & _)]. exact H.
  - simpl. apply IH. destruct H as [H|(c & [->|Hc] & Hk)].
    + left. apply dict_get_set_some, H.
    + left. subst k. rewrite dict_get_set_same. discriminate.
    + right. exists c. auto.
Qed.

Lemma keyed_distinct (l : list Command) : forall d,
  NoDup (dict_keys d ++ map qualified_name l) ->
  keyed l d = d ++ map (fun c => (qualified_name c, c)) l.
Proof.
  induction l as [|c l IH]; intros d H; simpl.
  - rewrite app_nil_r. reflexivity.
  - assert (F : dict_get d (qualified_name c) = None).
    { apply dict_get_keys. intros Hin.
      apply NoDup_remove_2 in H. apply H, in_or_app. auto. }
    rewrite dict_set_fresh by exact F. rewrite IH.
    + rewrite <- app_assoc. reflexivity.
    + unfold dict_keys in *. rewrite map_app. simpl.
      rewrite <- app_assoc. exact H.
Qed.

(** Distinct qualified names stay distinct among the commands kept. *)
Lemma kept_names_distinct (keep : Command -> bool) (cmds : list Command) :
  NoDup (map qualified_name cmds) ->
  NoDup (map qualified_name (filter keep cmds)).
Proof.
  induction cmds as [|c cmds IH]; intros H; [constructor|].
  simpl in H. apply NoDup_cons_iff in H. destruct H as [Hc Hrest].
  simpl. destruct (keep c); [|exact (IH Hrest)].
  simpl. apply NoDup_cons; [|exact (IH Hrest)].
  intros Hin. apply Hc. apply in_map_iff in Hin.
  destruct Hin as (c' & Hname & Hin). apply filter_In in Hin.
  apply in_map_iff. exists c'. tauto.
Qed.

Lemma visible_conditions (self : HelpCommand) (c : Command) :
  visible self c = true
  <-> (enabled c = true \/ show_disabled self = Some true)
      /\ (cmd_eqb c (cmd self) = false \/ show_self self = true)
      /\ (hidden c = false \/ show_hidden self = true).
Proof.
  unfold visible, shows_disabled.
  rewrite !andb_true_iff, !orb_true_iff, !negb_true_iff.
  destruct (show_disabled self) as [[|]|]; intuition congruence.
Qed.

(** X1. Every entry of the mapping [_gather] returns is keyed by the
    qualified name of its command, which is a command of the registry
    that is enabled unless [show_disabled] is set, is not the help
    command unless [show_self] is set, and is not hidden unless
    [show_hidden] is set. *)
Theorem gather_entries_pass_filter :
  forall (run_check : Check -> Context -> bool) (self : HelpCommand)
         (ctx : option Context) (out : dict Command) (k : str)
         (c : Command),
    _gather run_check self ctx = Some out ->
    dict_get out k = Some c ->
    k = qualified_name c
    /\ In c (dict_values (commands (_client self)))
    /\ (enabled c = true \/ show_disabled self = Some true)
    /\ (cmd_eqb c (cmd self) = false \/ show_self self = true)
    /\ (hidden c = false \/ show_hidden self = true).
Proof.
  intros run_check self ctx out k c G H.
  apply (@gather_get _ _ _ _ k c G) in H.
  destruct H as (Hin & Hv & Hk). apply visible_conditions in Hv.
  split; [symmetry; exact Hk|]. split; [exact Hin | exact Hv].
Qed.

(** The entry [ping] of a bot with the default options. *)
Lemma gather_entries_pass_filter_witness :
  let self := ex_default [ex_help; ex_ping; ex_secret] ex_user in
  lit "ping" = qualified_name ex_ping
  /\ In ex_ping (dict_values (commands (_client self)))
  /\ (enabled ex_ping = true \/ show_disabled self = Some true)
  /\ (cmd_eqb ex_ping (cmd self) = false \/ show_self self = true)
  /\ (hidden ex_ping = false \/ show_hidden self = true).
Proof.
  exact (gather_entries_pass_filter ex_deny
           (ex_default [ex_help; ex_ping; ex_secret] ex_user) (Some ex_ctx)
           (out := [(lit "ping", ex_ping)]) (lit "ping") (c := ex_ping)
           eq_refl eq_refl).
Defined.

Lemma gather_has_key self k :
  dict_get (gather_by_flags self) k <> None
  <-> exists c, In c (dict_values (commands (_client self)))
                /\ qualified_name c = k /\ visible self c = true.
Proof.
  unfold gather_by_flags. split.
  - intros H.
    destruct (dict_get (keyed _ _) k) as [c|] eqn:E; [|contradiction].
    apply keyed_get in E. destruct E as [[E1 E2]|E]; [|discriminate].
    apply filter_In in E1. exists c. tauto.
  - intros (c & Hin & Hk & Hv). apply keyed_present. right.
    exists c. split; [apply filter_In; tauto | exact Hk].
Qed.

(** X2. Whenever [_gather] returns a mapping, a name is a key of it
    exactly when some command of the registry has it as qualified name,
    is enabled unless [show_disabled] is set, is not the help command
    unless [show_self] is set, and is not hidden unless [show_hidden] is
    set; the checks and the context play no part. *)
Theorem gather_key_iff :
  forall (run_check : Check -> Context -> bool) (self : HelpCommand)
         (ctx : option Context) (out : dict Command) (k : str),
    _gather run_check self ctx = Some out ->
    dict_get out k <> None
    <-> exists c, In c (dict_values (commands (_client self)))
                  /\ qualified_name c = k
                  /\ (enabled c = true \/ show_disabled self = Some true)
                  /\ (cmd_eqb c (cmd self) = false \/ show_self self = true)
                  /\ (hidden c = false \/ show_hidden self = true).
Proof.
  intros run_check self ctx out k G. apply gather_some in G. subst out.
  rewrite gather_has_key.
  split; intros (c & Hin & Hk & Hv); exists c;
    (split; [exact Hin|]); (split; [exact Hk|]);
    apply visible_conditions; exact Hv.
Qed.

(** With the default options, [secret] is no key: the one command of
    that name is hidden. *)
Lemma gather_key_iff_witness :
  let self := ex_default [ex_help; ex_ping; ex_secret] ex_user in
  dict_get [(lit "ping", ex_ping)] (lit "secret") <> None
  <-> exists c, In c (dict_values (commands (_client self)))
                /\ qualified_name c = lit "secret"
                /\ (enabled c = true \/ show_disabled self = Some true)
                /\ (cmd_eqb c (cmd self) = false \/ show_self self = true)
                /\ (hidden c = false \/ show_hidden self = true).
Proof.
  exact (gather_key_iff ex_deny
           (ex_default [ex_help; ex_ping; ex_secret] ex_user) (Some ex_ctx)
           (out := [(lit "ping", ex_ping)]) (lit "secret") eq_refl).
Defined.

Lemma gather_in_order self :
  NoDup (map qualified_name (dict_values (commands (_client self)))) ->
  gather_by_flags self
  = map (fun c => (qualified_name c, c))
        (filter (visible self) (dict_values (commands (_client self)))).
Proof.
  intros H. unfold gather_by_flags.
  rewrite keyed_distinct; [reflexivity|].
  simpl. apply kept_names_distinct, H.
Qed.

(** X3. When the commands of the registry have pairwise distinct
    qualified names and [_gather] returns a mapping, its values are
    exactly the commands that pass the three flag conditions, in the
    order of the registry, and its keys are their qualified names in the
    same order. *)
Theorem gather_in_registry_order :
  forall (run_check : Check -> Context -> bool) (self : HelpCommand)
         (ctx : option Context) (out : dict Command),
    NoDup (map qualified_name (dict_values (commands (_client self)))) ->
    _gather run_check self ctx = Some out ->
    let kept := filter (visible self)
                       (dict_values (commands (_client self))) in
    dict_values out = kept /\ dict_keys out = map qualified_name kept.
Proof.
  intros run_check self ctx out H G kept. apply gather_some in G. subst out.
  rewrite gather_in_order by exact H.
  fold kept. unfold dict_values, dict_keys. rewrite !map_map. simpl.
  rewrite map_id. split; reflexivity.
Qed.

(** Of [help], [ping], [secret] and [ban], the default options keep
    [ping] and [ban]. *)
Lemma gather_in_registry_order_witness :
  dict_values [(lit "ping", ex_ping); (lit "ban", ex_ban)]
  = [ex_ping; ex_ban]
  /\ dict_keys [(lit "ping", ex_ping); (lit "ban", ex_ban)]
     = [lit "ping"; lit "ban"].
Proof.
  apply (gather_in_registry_order ex_deny
           (ex_default [ex_help; ex_ping; ex_secret; ex_ban] ex_user)
           (Some ex_ctx)
           (out := [(lit "ping", ex_ping); (lit "ban", ex_ban)]));
    [|reflexivity].
  repeat constructor; simpl; intuition discriminate.
Defined.

(** X4. Setting more of the flags [show_hidden], [show_disabled] and
    [show_self], on the same client, never removes a key from the
    mapping [_gather] returns, nor makes a returning [_gather] raise. *)
Theorem gather_grows_with_flags :
  forall (run_check : Check -> Context -> bool) (a b : HelpCommand)
         (ctx : option Context) (out : dict Command) (k : str),
    shows_more a b ->
    _gather run_check a ctx = Some out ->
    dict_get out k <> None ->
    exists out', _gather run_check b ctx = Some out'
                 /\ dict_get out' k <> None.
Proof.
  intros run_check a b ctx out k (Hcl & Hcmd & Hh & Hd & Hs) G H.
  assert (Ra : gather_raises a = false).
  { rewrite gather_run in G. destruct (gather_raises a); congruence. }
  assert (Rb : gather_raises b = false).
  { destruct (gather_raises b) eqn:E; [|reflexivity].
    apply gather_raises_iff in E. destruct E as (Eb & c & Hin & He).
    rewrite <- Ra. symmetry. apply gather_raises_iff. split.
    - destruct (show_disabled a) as [x|] eqn:Ea; [|reflexivity].
      destruct (Hd x eq_refl) as (y & Hy & _). congruence.
    - exists c. rewrite <- Hcl. tauto. }
  exists (gather_by_flags b). rewrite gather_run, Rb.
  split; [reflexivity|].
  apply gather_some in G. subst out.
  apply gather_has_key in H. apply gather_has_key.
  destruct H as (c & Hin & Hk & Hv). exists c. rewrite Hcl.
  split; [exact Hin|]. split; [exact Hk|].
  apply visible_conditions in Hv. apply visible_conditions.
  rewrite Hcmd. destruct Hv as ([He|He] & Hv2 & Hv3).
  - intuition.
  - destruct (Hd true He) as (y & Hy & Hyt). rewrite Hy, (Hyt eq_refl).
    intuition.
Qed.

(** With [show_hidden] set besides the defaults, [ping] is still a key. *)
Lemma gather_grows_with_flags_witness :
  exists out',
    _gather ex_deny
      (init (ex_client [ex_secret; ex_ping] ex_user)
            true false false false false false None None ex_help)
      (Some ex_ctx) = Some out'
    /\ dict_get out' (lit "ping") <> None.
Proof.
  apply (@gather_grows_with_flags ex_deny
           (ex_default [ex_secret; ex_ping] ex_user) _ (Some ex_ctx)
           [(lit "ping", ex_ping)] (lit "ping")).
  - repeat split; try discriminate.
  - reflexivity.
  - discriminate.
Defined.

(** X17. On a help command as [__init__] leaves it, with nothing
    assigned to [show_disabled], a disabled command in the registry
    makes [_gather] raise, and with it both views and the callback: no
    mapping is returned and nothing is sent. Once [show_disabled] is
    assigned, [_gather] returns. *)
Theorem unassigned_show_disabled_raises :
  forall (run_check : Check -> Context -> bool) (client : Client)
         (show_hidden run_checks show_self show_params show_aliases
            show_prefix : bool)
         (title message : option str) (callback : Command) (ctx : Context),
    (exists c, In c (dict_values (commands client)) /\ enabled c = false) ->
    let self := init client show_hidden run_checks show_self show_params
                     show_aliases show_prefix title message callback in
    _gather run_check self (Some ctx) = None
    /\ _gather run_check self None = None
    /\ (forall cmd_name, _callback run_check self ctx cmd_name = None)
    /\ _help_list run_check self ctx = None
    /\ (forall cmd_name, _help_specific run_check self ctx cmd_name = None)
    /\ (forall b, _gather run_check (set_show_disabled self b) (Some ctx)
                  = Some (gather_by_flags (set_show_disabled self b))).
Proof.
  intros run_check client sh rc ss sp sa spx t m cb ctx Hoff self.
  assert (R : gather_raises self = true).
  { apply gather_raises_iff. split; [reflexivity | exact Hoff]. }
  assert (G : forall x, _gather run_check self x = None).
  { intros x. rewrite gather_run, R. reflexivity. }
  assert (L : _help_list run_check self ctx = None).
  { unfold _help_list. rewrite G. reflexivity. }
  assert (S : forall n, _help_specific run_check self ctx n = None).
  { intros n. unfold _help_specific. rewrite G. reflexivity. }
  repeat split; try apply G; try exact L; try exact S.
  - intros [[|c n]|]; simpl; auto.
  - intros b. rewrite gather_run.
    destruct (gather_raises (set_show_disabled self b)) eqn:E;
      [|reflexivity].
    apply gather_raises_iff in E. destruct E as [E _]. discriminate E.
Qed.

(** [HelpCommand(client)] with the disabled command [off] registered. *)
Lemma unassigned_show_disabled_raises_witness :
  let self := ex_default [ex_off; ex_ping] ex_user in
  _gather ex_deny self (Some ex_ctx) = None
  /\ _gather ex_deny self None = None
  /\ (forall cmd_name, _callback ex_deny self ex_ctx cmd_name = None)
  /\ _help_list ex_deny self ex_ctx = None
  /\ (forall cmd_name, _help_specific ex_deny self ex_ctx cmd_name = None)
  /\ (forall b, _gather ex_deny (set_show_disabled self b) (Some ex_ctx)
                = Some (gather_by_flags (set_show_disabled self b))).
Proof.
  apply (unassigned_show_disabled_raises ex_deny
           (ex_client [ex_off; ex_ping] ex_user)
           false false false false false false None None ex_help ex_ctx).
  exists ex_off. split; [left|]; reflexivity.
Defined.

(** ** More on what the views send *)

Lemma entry_run (self : HelpCommand) (doc : Command -> str) (c : Command)
      (ctx : Context) :
  run_on (let! _temp := _generate_command_string self in
          let! d := read (fun s => doc (st_cmd s)) in
          let _temp := _temp ++ (nl ++ d) in
          _sanitise_mentions self _temp) c ctx
  = entry self doc c ctx.
Proof.
  unfold entry, run_on, bind, read.
  rewrite !generate_command_string_run. reflexivity.
Qed.

Lemma help_lines_map (self : HelpCommand) (ctx : Context)
      (cmds : dict Command) :
  help_lines self ctx cmds
  = map (fun c => entry self brief c ctx) (dict_values cmds).
Proof.
  unfold help_lines.
  assert (G : forall l acc,
    fold_left
      (fun output c =>
         output ++ [run_on (let! _temp := _generate_command_string self in
                            let! b := read (fun s => brief (st_cmd s)) in
                            let _temp := _temp ++ (nl ++ b) in
                            _sanitise_mentions self _temp) c ctx])
      l acc
    = acc ++ map (fun c => entry self brief c ctx) l).
  { induction l as [|c l IH]; intros acc; simpl.
    - rewrite app_nil_r. reflexivity.
    - rewrite IH, entry_run, <- app_assoc. reflexivity. }
  apply G.
Qed.

(** X5. The list view writes one line per command that survived
    [_gather]. When the commands of the registry have pairwise distinct
    qualified names, the lines are the entries (command string, line
    feed, brief, sanitised) of the commands that pass the three flag
    conditions, in the order of the registry. *)
Theorem list_view_lines :
  forall (run_check : Check -> Context -> bool) (self : HelpCommand)
         (ctx : Context) (cmds : dict Command),
    _gather run_check self (Some ctx) = Some cmds ->
    length (help_lines self ctx cmds) = length cmds
    /\ (NoDup (map qualified_name (dict_values (commands (_client self)))) ->
        help_lines self ctx cmds
        = map (fun c => entry self brief c ctx)
              (filter (visible self)
                      (dict_values (commands (_client self))))).
Proof.
  intros run_check self ctx cmds G. rewrite help_lines_map. split.
  - unfold dict_values. rewrite !length_map. reflexivity.
  - intros H. apply gather_some in G. subst cmds.
    rewrite gather_in_order by exact H.
    unfold dict_values. rewrite !map_map. reflexivity.
Qed.

(** Of [help], [ping] and [secret], the default options list [ping]. *)
Lemma list_view_lines_witness :
  help_lines (ex_default [ex_help; ex_ping; ex_secret] ex_user) ex_ctx
    [(lit "ping", ex_ping)]
  = [lit "`ping`" ++ nl ++ lit "Pong"].
Proof.
  apply (proj2 (list_view_lines ex_deny
                  (ex_default [ex_help; ex_ping; ex_secret] ex_user) ex_ctx
                  (cmds := [(lit "ping", ex_ping)]) eq_refl)).
  repeat constructor; simpl; intuition discriminate.
Defined.

Lemma help_specific_reply run_check self ctx cmd_name sent :
  _help_specific run_check self ctx cmd_name = Some sent ->
  exists text, sent = Reply text.
Proof.
  unfold _help_specific.
  destruct (_gather run_check self (Some ctx)); [|discriminate].
  destruct (lower cmd_name); [|discriminate].
  destruct (dict_get _ _).
  - intros H. injection H as <-. eexists. reflexivity.
  - destruct (format_kw _ _ _); [|discriminate].
    intros H. injection H as <-. eexists. reflexivity.
Qed.

(** X6. Whatever the callback sends, it is a plain text reply exactly
    when a non-empty command name was given; with no name or the empty
    name it is an embed or a paginator. *)
Theorem callback_reply_kind :
  forall (run_check : Check -> Context -> bool) (self : HelpCommand)
         (ctx : Context) (cmd_name : option str) (sent : Sent),
    _callback run_check self ctx cmd_name = Some sent ->
    (exists text, sent = Reply text)
    <-> (exists c s, cmd_name = Some (c :: s)).
Proof.
  intros run_check self ctx cmd_name sent H.
  destruct cmd_name as [[|c s]|]; simpl in H.
  - split.
    + intros [text ->]. apply help_list_not_reply in H. destruct H.
    + intros (c & s & E). discriminate.
  - split.
    + intros _. exists c, s. reflexivity.
    + intros _. apply help_specific_reply in H. exact H.
  - split.
    + intros [text ->]. apply help_list_not_reply in H. destruct H.
    + intros (c & s & E). discriminate.
Qed.

(** The unknown name [nope] gets a text reply. *)
Lemma callback_reply_kind_witness :
  (exists text,
     Reply (lit "Sorry! No command called `nope` was found.") = Reply text)
  <-> (exists c s, Some (lit "nope") = Some (c :: s)).
Proof.
  exact (callback_reply_kind ex_deny (ex_default [ex_ping] ex_user) ex_ctx
           (Some (lit "nope")) eq_refl).
Defined.

(** X7. A request of ASCII characters is matched without regard to
    case against a command whose qualified name is in lower case: when
    [_gather] returns and the lower-cased request is the qualified name
    of a command of the registry that passes the three flag conditions
    and alone bears that name, the single-command view replies with that
    command's entry (command string, line feed, help text, sanitised). *)
Theorem specific_view_finds :
  forall (run_check : Check -> Context -> bool) (self : HelpCommand)
         (ctx : Context) (cmd_name : str) (cmds : dict Command)
         (c : Command),
    _gather run_check self (Some ctx) = Some cmds ->
    In c (dict_values (commands (_client self))) ->
    visible self c = true ->
    (forall c', In c' (dict_values (commands (_client self))) ->
                qualified_name c' = qualified_name c -> c' = c) ->
    lower cmd_name = Some (qualified_name c) ->
    _help_specific run_check self ctx cmd_name
    = Some (Reply (entry self help c ctx)).
Proof.
  intros run_check self ctx cmd_name cmds c G Hin Hv Hu Hl.
  unfold _help_specific.
  rewrite G, Hl, (@gather_get_visible run_check self (Some ctx) cmds c
                    G Hin Hv Hu).
  rewrite entry_run. reflexivity.
Qed.

(** The request [PING] gets the entry of [ping]. *)
Lemma specific_view_finds_witness :
  _help_specific ex_deny (ex_default [ex_help; ex_ping] ex_user) ex_ctx
                 (lit "PING")
  = Some (Reply (lit "`ping`" ++ nl ++ lit "Replies with pong")).
Proof.
  apply (@specific_view_finds ex_deny
           (ex_default [ex_help; ex_ping] ex_user) ex_ctx (lit "PING")
           [(lit "ping", ex_ping)] ex_ping).
  - reflexivity.
  - right. left. reflexivity.
  - reflexivity.
  - intros c' [<- | [<- | []]] E; [discriminate E | reflexivity].
  - reflexivity.
Defined.

(** X8. A command that the filter drops is reported as not found: when
    [_gather] returns and every command of the registry whose qualified
    name is the lower-cased request (a request of ASCII characters)
    fails one of the three flag conditions, or there is none, the
    single-command view replies with the formatted
    [not_found_message]. *)
Theorem specific_view_hides_filtered :
  forall (run_check : Check -> Context -> bool) (self : HelpCommand)
         (ctx : Context) (cmd_name name m : str) (cmds : dict Command),
    _gather run_check self (Some ctx) = Some cmds ->
    lower cmd_name = Some name ->
    (forall c, In c (dict_values (commands (_client self))) ->
               qualified_name c = name -> visible self c = false) ->
    format_kw (not_found_message self) (lit "cmd_name") cmd_name = Some m ->
    _help_specific run_check self ctx cmd_name = Some (Reply m).
Proof.
  intros run_check self ctx cmd_name name m cmds G Hl Hf Hm.
  unfold _help_specific. rewrite G, Hl.
  destruct (dict_get cmds name) as [c|] eqn:E.
  - apply (@gather_get _ _ _ _ name c G) in E.
    destruct E as (Hin & Hv & Hk).
    rewrite (Hf c Hin Hk) in Hv. discriminate.
  - rewrite Hm. reflexivity.
Qed.

(** With the default options, asking for the hidden [secret] and for
    [help] itself gets the not found message. *)
Lemma specific_view_hides_filtered_witness :
  let self := ex_default [ex_help; ex_ping; ex_secret] ex_user in
  _help_specific ex_deny self ex_ctx (lit "secret")
  = Some (Reply (lit "Sorry! No command called `secret` was found."))
  /\ _help_specific ex_deny self ex_ctx (lit "help")
     = Some (Reply (lit "Sorry! No command called `help` was found.")).
Proof.
  intros self. split.
  - apply (@specific_view_hides_filtered ex_deny self ex_ctx (lit "secret")
             (lit "secret") _ [(lit "ping", ex_ping)]);
      [reflexivity | reflexivity | | reflexivity].
    intros c [<- | [<- | [<- | []]]] E;
      solve [discriminate E | reflexivity].
  - apply (@specific_view_hides_filtered ex_deny self ex_ctx (lit "help")
             (lit "help") _ [(lit "ping", ex_ping)]);
      [reflexivity | reflexivity | | reflexivity].
    intros c [<- | [<- | [<- | []]]] E;
      solve [discriminate E | reflexivity].
Defined.

(** X9. A help command constructed without templates, or with empty
    ones, uses the two default templates. They format for every username
    and every requested name, braces included, the value being put in
    as it is: the title is the username followed by [ Help Command] and
    the message quotes the name between backticks. *)
Theorem default_templates_format :
  forall (client : Client)
         (show_hidden run_checks show_self show_params show_aliases
            show_prefix : bool)
         (title message : option str)
         (callback : Command),
    title = None \/ title = Some [] ->
    message = None \/ message = Some [] ->
    let self := init client show_hidden run_checks show_self show_params
                     show_aliases show_prefix title message
                     callback in
    (forall u : str,
       format_kw (embed_title self) (lit "username") u
       = Some (u ++ lit " Help Command"))
    /\ (forall n : str,
          format_kw (not_found_message self) (lit "cmd_name") n
          = Some (lit "Sorry! No command called `" ++ n
                  ++ lit "` was found.")).
Proof.
  intros client sh rc ss sp sa spx et nf cb Het Hnf self.
  assert (E1 : embed_title self = default_embed_title)
    by (destruct Het as [-> | ->]; reflexivity).
  assert (E2 : not_found_message self = default_not_found_message)
    by (destruct Hnf as [-> | ->]; reflexivity).
  rewrite E1, E2. split.
  - intros u.
    exact (format_kw_token (lit "username") u [] (lit " Help Command")
             eq_refl eq_refl eq_refl).
  - intros n.
    exact (format_kw_token (lit "cmd_name") n
             (lit "Sorry! No command called `") (lit "` was found.")
             eq_refl eq_refl eq_refl).
Qed.

(** A username and a requested name with braces. *)
Lemma default_templates_format_witness :
  let self := init (ex_client [ex_ping] ex_user)
                   false false false false false false (Some []) None
                   ex_help in
  format_kw (embed_title self) (lit "username") (lit "{bot}")
  = Some (lit "{bot} Help Command")
  /\ format_kw (not_found_message self) (lit "cmd_name") (lit "a{0}b")
     = Some (lit "Sorry! No command called `a{0}b` was found.").
Proof.
  intros self.
  destruct (default_templates_format (ex_client [ex_ping] ex_user)
              false false false false false false ex_help
              (title := Some []) (message := None)
              (or_intror eq_refl) (or_introl eq_refl)) as [H1 H2].
  split; [apply H1 | apply H2].
Defined.

(** ** More on sanitising *)

Lemma occurs_cons (p : str) (c : char) (t : str) :
  occurs p t -> occurs p (c :: t).
Proof. intros (a & b & ->). exists (c :: a), b. reflexivity. Qed.

Lemma occurs_start (p : str) (c : char) (t : str) :
  occurs p (c :: t) -> starts_with (c :: t) p = true \/ occurs p t.
Proof.
  intros (a & b & E). destruct a as [|x a].
  - left. simpl in E. rewrite E. apply starts_with_app.
  - right. injection E as _ ->. exists a, b. reflexivity.
Qed.

(** A text in which [old] does not occur is left as it is. *)
Lemma replace_scan_absent (old new t : str) :
  ~ occurs old t -> replace_scan old new 0 t = t.
Proof.
  induction t as [|c t IH]; intros H; [reflexivity|].
  destruct (starts_with (c :: t) old) eqn:E.
  - exfalso. apply H. exists [], (skipn (length old) (c :: t)).
    apply starts_with_split, E.
  - rewrite replace_scan_miss by exact E. f_equal. apply IH.
    intros Ho. apply H, occurs_cons, Ho.
Qed.

(** Replacing by a longer text makes a text longer exactly when
    something is replaced. *)
Lemma replace_scan_grows (o : char) (os new : str) :
  length (o :: os) < length new ->
  forall n t, length t <= n ->
    length t <= length (replace_scan (o :: os) new 0 t)
    /\ (occurs (o :: os) t ->
        length t < length (replace_scan (o :: os) new 0 t)).
Proof.
  intros Hlen. induction n as [|n IH]; intros t Hn.
  - destruct t; [|simpl in Hn; lia]. split; [simpl; lia|].
    intros (a & b & E). destruct a; discriminate.
  - destruct t as [|c t]; [split; [simpl; lia|]|].
    { intros (a & b & E). destruct a; discriminate. }
    destruct (starts_with (c :: t) (o :: os)) eqn:E.
    + pose proof (starts_with_split _ _ E) as Es.
      remember (skipn (length (o :: os)) (c :: t)) as r eqn:Er. clear Er.
      rewrite Es, replace_scan_hit, !length_app.
      assert (Hr : length r <= n).
      { apply (f_equal (@length _)) in Es. rewrite length_app in Es.
        simpl in Es, Hn. simpl. lia. }
      destruct (IH r Hr) as [Hle _]. split; lia.
    + rewrite replace_scan_miss by exact E.
      assert (Ht : length t <= n) by (simpl in Hn; lia).
      destruct (IH t Ht) as [Hle Hlt]. split; [simpl; lia|].
      intros Ho. apply occurs_start in Ho. destruct Ho as [Ho|Ho].
      * rewrite Ho in E. discriminate.
      * simpl. apply Hlt in Ho. lia.
Qed.

Lemma replace_scan_fixed (o : char) (os new t : str) :
  length (o :: os) < length new ->
  replace_scan (o :: os) new 0 t = t -> ~ occurs (o :: os) t.
Proof.
  intros Hlen E Ho.
  destruct (@replace_scan_grows o os new Hlen (length t) t (le_n _)) as [_ H].
  apply H in Ho. rewrite E in Ho. lia.
Qed.

Lemma clean1_absent (p s : str) (ss : list str) :
  noat p = true -> noat s = true -> forallb noat ss = true ->
  clean1 p ss = true -> ~ occurs (at_sign :: p) (unsegs s ss).
Proof.
  intros Hp Hs Hss Hc.
  apply (@replace_scan_fixed at_sign p (at_sign :: p ++ [0%N])).
  - simpl. rewrite length_app. simpl. lia.
  - rewrite (@replace_segs1 p (p ++ [0%N]) Hp ss s Hs Hss).
    rewrite sub1_clean by exact Hc. reflexivity.
Qed.

Lemma clean2_absent (p s : str) (ss : list str) :
  noat p = true -> noat s = true -> forallb noat ss = true ->
  clean2 p s ss = true -> ~ occurs (lt_sign :: at_sign :: p) (unsegs s ss).
Proof.
  intros Hp Hs Hss Hc.
  apply (@replace_scan_fixed lt_sign (at_sign :: p)
           (at_sign :: p ++ [0%N; 0%N])).
  - simpl. rewrite length_app. simpl. lia.
  - rewrite (@replace_segs2 p (p ++ [0%N; 0%N]) Hp ss s Hs Hss).
    destruct (sub2_clean p (p ++ [0%N; 0%N]) ss s Hc) as [-> ->].
    reflexivity.
Qed.

Lemma noat_absent (p t : str) :
  In at_sign p -> noat t = true -> ~ occurs p t.
Proof.
  intros Hp Ht (a & b & ->). rewrite !noat_app in Ht.
  apply andb_true_iff in Ht. destruct Ht as [_ Ht].
  apply andb_true_iff in Ht. destruct Ht as [Ht _].
  unfold noat in Ht. rewrite forallb_forall in Ht.
  specialize (Ht _ Hp). rewrite N.eqb_refl in Ht. discriminate.
Qed.

Lemma four_absent (u d text : str) :
  ~ occurs (lit "@everyone") text -> ~ occurs (lit "@here") text ->
  ~ occurs (lit "<@" ++ d ++ lit ">") text ->
  ~ occurs (lit "<@!" ++ d ++ lit ">") text ->
  four u d text = text.
Proof.
  intros H1 H2 H3 H4. unfold four.
  rewrite (replace_scan_absent _ H1), (replace_scan_absent _ H2),
    (replace_scan_absent _ H3), (replace_scan_absent _ H4).
  reflexivity.
Qed.

(** X10. A text in which none of the four tokens occurs ([@everyone],
    [@here], [<@id>] and [<@!id>] for the bot's id) is returned as it
    is by [_sanitise_mentions]; so is, in particular, every text without
    an at sign. *)
Theorem sanitise_keeps_text_without_tokens :
  forall (self : HelpCommand) (text : str) (s : Store),
    let d := str_of_int (id (user (_client self))) in
    (~ occurs (lit "@everyone") text -> ~ occurs (lit "@here") text ->
     ~ occurs (lit "<@" ++ d ++ lit ">") text ->
     ~ occurs (lit "<@!" ++ d ++ lit ">") text ->
     _sanitise_mentions self text s = (text, s))
    /\ (noat text = true -> _sanitise_mentions self text s = (text, s)).
Proof.
  intros self text s d.
  assert (G : ~ occurs (lit "@everyone") text -> ~ occurs (lit "@here") text ->
              ~ occurs (lit "<@" ++ d ++ lit ">") text ->
              ~ occurs (lit "<@!" ++ d ++ lit ">") text ->
              _sanitise_mentions self text s = (text, s)).
  { intros H1 H2 H3 H4. rewrite sanitise_mentions_four. fold d.
    rewrite four_absent by assumption. reflexivity. }
  split; [exact G|].
  intros Hn. apply G; apply noat_absent; try exact Hn; simpl; auto.
Qed.

(** A mention of another user and a text without at sign. *)
Lemma sanitise_keeps_text_without_tokens_witness :
  let self := ex_default [ex_ping] ex_user in
  let s := {| st_cmd := ex_ping; st_ctx := ex_ctx |} in
  _sanitise_mentions self (lit "ask <@2> or @her") s
  = (lit "ask <@2> or @her", s)
  /\ _sanitise_mentions self (lit "Replies with pong") s
     = (lit "Replies with pong", s).
Proof.
  intros self s. split.
  - apply (proj1 (sanitise_keeps_text_without_tokens self
                    (lit "ask <@2> or @her") s)).
    + apply (@replace_scan_fixed at_sign (lit "everyone") (lit "@everyone0"));
        [simpl; lia | reflexivity].
    + apply (@replace_scan_fixed at_sign (lit "here") (lit "@here0"));
        [simpl; lia | reflexivity].
    + apply (@replace_scan_fixed lt_sign (lit "@1>") (lit "<@1>0"));
        [simpl; lia | reflexivity].
    + apply (@replace_scan_fixed lt_sign (lit "@!1>") (lit "<@!1>0"));
        [simpl; lia | reflexivity].
  - apply (proj2 (sanitise_keeps_text_without_tokens self
                    (lit "Replies with pong") s)).
    reflexivity.
Defined.

(** X11. For a bot whose username is safe (no at sign, no [<] at its
    end, neither a prefix of nor prefixed by [everyone], [here], the id
    followed by [>], or [!] followed by the id and [>]), none of the
    four tokens occurs in a sanitised text: neither [@everyone] nor
    [@here] nor a mention of the bot is left. *)
Theorem sanitised_text_has_no_token :
  forall (self : HelpCommand) (text : str) (s : Store),
    safe_username (user (_client self)) = true ->
    let d := str_of_int (id (user (_client self))) in
    let out := fst (_sanitise_mentions self text s) in
    ~ occurs (lit "@everyone") out /\ ~ occurs (lit "@here") out
    /\ ~ occurs (lit "<@" ++ d ++ lit ">") out
    /\ ~ occurs (lit "<@!" ++ d ++ lit ">") out.
Proof.
  intros self text s Hsafe d out. subst out.
  rewrite sanitise_mentions_four. cbn [fst]. fold d.
  unfold safe_username in Hsafe. fold d in Hsafe.
  repeat (apply andb_true_iff in Hsafe; destruct Hsafe as [Hsafe ?]).
  repeat match goal with
         | H : negb _ = true |- _ => apply negb_true_iff in H
         end.
  assert (Hd : digits d = true) by apply uint_codes_digits.
  destruct (segs_exist text) as (s0 & ss0 & -> & Hs0 & Hss0).
  destruct (@four_cleans (username (user (_client self))) d)
    with (s := s0) (ss := ss0) as (s' & ss' & -> & Hc); try assumption.
  unfold clean in Hc.
  repeat (apply andb_true_iff in Hc; destruct Hc as [Hc ?]).
  repeat split.
  - apply (@clean1_absent (lit "everyone")); auto.
  - apply (@clean1_absent (lit "here")); auto.
  - apply (@clean2_absent (d ++ lit ">")); auto. apply noat_id, Hd.
  - apply (@clean2_absent (lit "!" ++ d ++ lit ">")); auto.
    apply noat_nick, Hd.
Qed.

(** The bot [molter] with id 1 on a text with all four tokens. *)
Lemma sanitised_text_has_no_token_witness :
  let self := ex_default [ex_ping] ex_user in
  let s := {| st_cmd := ex_ping; st_ctx := ex_ctx |} in
  let out := fst (_sanitise_mentions self
                    (lit "<@1> @everyone <@!1>re @here") s) in
  ~ occurs (lit "@everyone") out /\ ~ occurs (lit "@here") out
  /\ ~ occurs (lit "<@1>") out /\ ~ occurs (lit "<@!1>") out.
Proof.
  intros self s.
  apply (sanitised_text_has_no_token self
           (lit "<@1> @everyone <@!1>re @here") s).
  reflexivity.
Defined.

Lemma replace_scan_pass2 (p new s : str) : forall r,
  noat s = true -> ends_lt s = false ->
  replace_scan (lt_sign :: at_sign :: p) new 0 (s ++ r)
  = s ++ replace_scan (lt_sign :: at_sign :: p) new 0 r.
Proof.
  induction s as [|c s IH]; intros r Hs Hl; [reflexivity|].
  simpl in Hs. apply andb_true_iff in Hs. destruct Hs as [_ Hs].
  change ((c :: s) ++ r) with (c :: s ++ r).
  destruct s as [|x s].
  - change (ends_lt [c]) with (N.eqb c lt_sign) in Hl.
    rewrite replace_scan_miss; [reflexivity|].
    cbn [starts_with app]. rewrite N.eqb_sym, Hl. reflexivity.
  - rewrite ends_lt_cons in Hl. rewrite replace_scan_miss.
    + rewrite (IH r Hs Hl). reflexivity.
    + simpl in Hs. apply andb_true_iff in Hs. destruct Hs as [Hx _].
      apply negb_true_iff in Hx.
      cbn [starts_with app]. rewrite (N.eqb_sym at_sign), Hx.
      apply andb_false_r.
Qed.

Lemma four_after (u d x r : str) :
  noat x = true -> ends_lt x = false ->
  four u d (x ++ r) = x ++ four u d r.
Proof.
  intros Hx Hl. unfold four.
  change (lit "@everyone") with (at_sign :: lit "everyone").
  change (lit "@here") with (at_sign :: lit "here").
  change (lit "<@" ++ d ++ lit ">")
    with (lt_sign :: at_sign :: d ++ lit ">").
  change (lit "<@!" ++ d ++ lit ">")
    with (lt_sign :: at_sign :: lit "!" ++ d ++ lit ">").
  rewrite !replace_scan_head1 by exact Hx.
  rewrite !replace_scan_pass2 by assumption.
  reflexivity.
Qed.

(** X12. When the command string of a command holds no at sign, the
    entry that the views write for it is that command string as it is,
    a line feed, and the sanitised [brief] or [help] text: sanitising
    the whole changes the documentation part only. *)
Theorem entry_sanitises_doc_only :
  forall (self : HelpCommand) (doc : Command -> str) (c : Command)
         (ctx : Context),
    noat (run_on (_generate_command_string self) c ctx) = true ->
    entry self doc c ctx
    = run_on (_generate_command_string self) c ctx ++ nl
      ++ run_on (_sanitise_mentions self (doc c)) c ctx.
Proof.
  intros self doc c ctx H. unfold entry, run_on at 1 4.
  rewrite !sanitise_mentions_four. cbn [fst].
  rewrite app_assoc, four_after, <- app_assoc; [reflexivity| |].
  - rewrite noat_app, H. reflexivity.
  - rewrite ends_lt_app. reflexivity.
Qed.

(** The entry of [announce] in the single-command view. *)
Lemma entry_sanitises_doc_only_witness :
  entry (ex_default [ex_announce] ex_user) help ex_announce ex_ctx
  = lit "`announce`" ++ nl
    ++ lit "Pings @" ++ zwsp :: lit "everyone and @" ++ zwsp :: lit "here".
Proof.
  apply (entry_sanitises_doc_only (ex_default [ex_announce] ex_user)
           help ex_announce ex_ctx).
  reflexivity.
Defined.

(** ** [register] and [send_help] *)

Lemma dict_del_same (V : Type) (d : dict V) (k : str) :
  dict_get (dict_del d k) k = None.
Proof.
  induction d as [|[k0 v0] d IH]; [reflexivity|]. unfold dict_del. simpl.
  destruct (str_eqb k0 k) eqn:E; simpl; [exact IH|].
  rewrite E. exact IH.
Qed.

Lemma dict_del_other (V : Type) (d : dict V) (k k' : str) :
  k <> k' -> dict_get (dict_del d k) k' = dict_get d k'.
Proof.
  intros Hk. induction d as [|[k0 v0] d IH]; [reflexivity|].
  unfold dict_del. simpl.
  destruct (str_eqb k0 k) eqn:E; simpl.
  - apply str_eqb_eq in E. subst k0.
    rewrite str_eqb_neq by exact Hk. exact IH.
  - destruct (str_eqb k0 k'); [reflexivity | exact IH].
Qed.

Lemma dict_del_set (V : Type) (d : dict V) (k : str) (v : V) :
  dict_del (dict_set (dict_del d k) k v) k = dict_del d k.
Proof.
  rewrite dict_set_fresh by apply dict_del_same.
  unfold dict_del. rewrite filter_app. simpl.
  rewrite str_eqb_refl. simpl. rewrite app_nil_r.
  induction d as [|[k0 v0] d IH]; [reflexivity|]. simpl.
  destruct (str_eqb k0 k) eqn:E; simpl; [exact IH|].
  rewrite E. simpl. rewrite IH. reflexivity.
Qed.

Lemma dict_del_absent (V : Type) (d : dict V) (k : str) :
  dict_get d k = None -> dict_del d k = d.
Proof.
  induction d as [|[k0 v0] d IH]; [reflexivity|]. unfold dict_del. simpl.
  destruct (str_eqb k0 k); [discriminate|]. simpl.
  intros H. f_equal. apply IH, H.
Qed.

Lemma dict_mem_get (V : Type) (d : dict V) (k : str) :
  dict_mem d k = false <-> dict_get d k = None.
Proof.
  unfold dict_mem. destruct (dict_get d k); split; congruence.
Qed.

Section RegisterFacts.
Variable add_message_command : Client -> Command -> option Client.
Variable run_check : Check -> Context -> bool.

Lemma register_callback (w : World) :
  w_callback (fst (register add_message_command w))
  = if is_partial (w_callback w) then w_callback w
    else Partial (w_callback w).
Proof.
  unfold register.
  destruct (dict_mem _ _); destruct (add_message_command _ _);
    destruct (is_partial (w_callback w)); reflexivity.
Qed.

Lemma registers_callback (n : nat) (w : World) :
  w_callback w = Function ->
  w_callback (Nat.iter (S n)
                (fun w => fst (register add_message_command w)) w)
  = Partial Function.
Proof.
  intros H. induction n as [|n IH].
  - simpl. rewrite register_callback, H. reflexivity.
  - change (Nat.iter (S (S n)) ?f w) with (f (Nat.iter (S n) f w)).
    cbv beta. rewrite register_callback, IH. reflexivity.
Qed.
End RegisterFacts.

(** X13. The callback of the command object is wrapped once however
    often [register] is called: before the first call [send_help]
    raises, and after one or more calls it does what [_callback] does
    for the registered help command, whether or not the host's
    [add_message_command] raised. *)
Theorem send_help_after_register :
  forall (add_message_command : Client -> Command -> option Client)
         (run_check : Check -> Context -> bool) (w : World) (n : nat)
         (ctx : Context) (cmd_name : option str),
    w_callback w = Function ->
    let w' := Nat.iter (S n)
                (fun w => fst (register add_message_command w)) w in
    send_help run_check w ctx cmd_name = None
    /\ w_callback w' = Partial Function
    /\ send_help run_check w' ctx cmd_name
       = _callback run_check (w_self w') ctx cmd_name.
Proof.
  intros add run_check w n ctx cmd_name H w'.
  pose proof (registers_callback add n w H) as Hcb. fold w' in Hcb.
  unfold send_help, call_callback. rewrite H, Hcb. repeat split.
Qed.

(** With [help] and [ping] registered, [send_help] for [ping] after two
    calls of [register]. *)
Lemma send_help_after_register_witness :
  let w := {| w_self := ex_default [ex_help2; ex_ping] ex_user;
              w_callback := Function; w_log := [] |} in
  let w' := fst (register ex_add (fst (register ex_add w))) in
  send_help ex_deny w ex_ctx (Some (lit "ping")) = None
  /\ w_callback w' = Partial Function
  /\ send_help ex_deny w' ex_ctx (Some (lit "ping"))
     = Some (Reply (lit "`ping`" ++ nl ++ lit "Replies with pong")).
Proof.
  intros w w'.
  exact (send_help_after_register ex_add ex_deny w 1 ex_ctx
           (Some (lit "ping")) eq_refl).
Defined.

(** X14. Provided the host's [add_message_command] stores the help
    command under [help] when that name is free, [register] returns
    with the help command stored under [help], in the place of any
    command that was there, and every other name of the registry maps
    to what it mapped to before; a warning is logged exactly when a
    command was there. *)
Theorem register_replaces_help :
  forall (add_message_command : Client -> Command -> option Client)
         (w : World),
    (forall client,
       dict_get (commands client) (lit "help") = None ->
       add_message_command client (cmd (w_self w))
       = Some (with_commands client
                 (dict_set (commands client) (lit "help")
                           (cmd (w_self w))))) ->
    let old := commands (_client (w_self w)) in
    let w' := fst (register add_message_command w) in
    let new := commands (_client (w_self w')) in
    snd (register add_message_command w) = Returned
    /\ dict_get new (lit "help") = Some (cmd (w_self w))
    /\ (forall k, k <> lit "help" -> dict_get new k = dict_get old k)
    /\ w_log w' = (if dict_mem old (lit "help")
                   then w_log w ++ [lit "Replacing existing help command."]
                   else w_log w).
Proof.
  intros add w Hadd old w' new. subst w' new. unfold register. fold old.
  destruct (dict_mem old (lit "help")) eqn:M.
  - rewrite Hadd by apply dict_del_same. cbn.
    rewrite dict_get_set_same. repeat split.
    intros k Hk.
    rewrite dict_get_set_other by (intros E; apply Hk; symmetry; exact E).
    apply dict_del_other. intros E; apply Hk; symmetry; exact E.
  - apply dict_mem_get in M. rewrite Hadd by exact M. cbn.
    rewrite dict_get_set_same. repeat split.
    intros k Hk.
    apply dict_get_set_other. intros E; apply Hk; symmetry; exact E.
Qed.

(** A registry with an earlier help command and [ping]. *)
Lemma register_replaces_help_witness :
  let w := {| w_self := ex_default [ex_help2; ex_ping] ex_user;
              w_callback := Function; w_log := [] |} in
  let w' := fst (register ex_add w) in
  snd (register ex_add w) = Returned
  /\ commands (_client (w_self w'))
     = [(lit "ping", ex_ping); (lit "help", ex_help)]
  /\ w_log w' = [lit "Replacing existing help command."].
Proof.
  intros w w'.
  destruct (register_replaces_help ex_add w) as (H1 & H2 & H3 & H4).
  - intros client H. unfold ex_add.
    change (qualified_name (cmd (w_self w))) with (lit "help").
    apply dict_mem_get in H. rewrite H. reflexivity.
  - split; [exact H1|]. split; [reflexivity | exact H4].
Defined.

(** X15. Under the same provision, calling [register] again
    changes nothing but the log: the help command object (options and
    registry) and the callback after two calls are those after one
    call, and the second call logs one more warning. *)
Theorem register_twice :
  forall (add_message_command : Client -> Command -> option Client)
         (w : World),
    (forall client,
       dict_get (commands client) (lit "help") = None ->
       add_message_command client (cmd (w_self w))
       = Some (with_commands client
                 (dict_set (commands client) (lit "help")
                           (cmd (w_self w))))) ->
    let w1 := fst (register add_message_command w) in
    let w2 := fst (register add_message_command w1) in
    w_self w2 = w_self w1
    /\ w_callback w2 = w_callback w1
    /\ snd (register add_message_command w1) = Returned
    /\ w_log w2 = w_log w1 ++ [lit "Replacing existing help command."].
Proof.
  intros add w Hadd w1 w2.
  assert (E1 : commands (_client (w_self w1))
               = dict_set (dict_del (commands (_client (w_self w)))
                                    (lit "help"))
                          (lit "help") (cmd (w_self w))).
  { subst w1. unfold register.
    destruct (dict_mem _ _) eqn:M.
    - rewrite Hadd by apply dict_del_same. reflexivity.
    - apply dict_mem_get in M. rewrite Hadd by exact M.
      rewrite (dict_del_absent _ _ M). reflexivity. }
  assert (C1 : cmd (w_self w1) = cmd (w_self w)).
  { subst w1. unfold register.
    destruct (dict_mem _ _); destruct (add _ _); reflexivity. }
  assert (M1 : dict_mem (commands (_client (w_self w1))) (lit "help")
               = true).
  { unfold dict_mem. rewrite E1, dict_get_set_same. reflexivity. }
  assert (P : is_partial (w_callback w1) = true).
  { subst w1. rewrite register_callback.
    destruct (is_partial (w_callback w)) eqn:P; [exact P | reflexivity]. }
  assert (R : register add w1
              = ({| w_self :=
                      with_client (w_self w1)
                        (with_commands
                           (with_commands (_client (w_self w1))
                              (dict_del (commands (_client (w_self w1)))
                                        (lit "help")))
                           (dict_set
                              (dict_del (commands (_client (w_self w1)))
                                        (lit "help"))
                              (lit "help") (cmd (w_self w))));
                    w_callback := w_callback w1;
                    w_log := w_log w1
                             ++ [lit "Replacing existing help command."] |},
                 Returned)).
  { unfold register. rewrite M1, C1, P.
    rewrite Hadd by apply dict_del_same. reflexivity. }
  subst w2. rewrite R. cbn [fst snd w_self w_callback w_log].
  repeat split.
  rewrite E1 at 1 2. rewrite dict_del_set, <- E1.
  destruct (w_self w1) as [cl ? ? ? ? ? ? ? ? ? ?]. destruct cl.
  reflexivity.
Qed.

(** Registering twice over an earlier help command. *)
Lemma register_twice_witness :
  let w := {| w_self := ex_default [ex_help2; ex_ping] ex_user;
              w_callback := Function; w_log := [] |} in
  let w1 := fst (register ex_add w) in
  let w2 := fst (register ex_add w1) in
  w_self w2 = w_self w1
  /\ w_callback w2 = w_callback w1
  /\ snd (register ex_add w1) = Returned
  /\ w_log w2 = w_log w1 ++ [lit "Replacing existing help command."].
Proof.
  intros w.
  apply (register_twice ex_add w).
  intros client H. unfold ex_add.
  change (qualified_name (cmd (w_self w))) with (lit "help").
  apply dict_mem_get in H. rewrite H. reflexivity.
Defined.
